(** * The trace subsystem of the kernel I/O tracer

    A shallow embedding of [source/kernel/io_trace.c] and of the bio
    macros of [source/kernel/internal/bio.h], with the properties of the
    attach/detach life cycle, of the event emitters and of the buffer
    sizing interface that the specification states about them, and with
    further properties of these, of the probe [bio_queue_event] and of
    the version buffer, that the code has.

    The functions of the life cycle and of the sizing run under
    [client_mutex]: a call of theirs is one transformation of the context,
    and an execution the sequence of its calls. The emitters run pinned
    to a processor and share the sequence counter, which they move by an
    atomic instruction: their calls are taken one after the other and, for
    the sequence ids, also cut at that instruction and interleaved. *)

From stdpp Require Import gmap list strings pretty.
From Stdlib Require Import ZArith Lia Sorted Ascii.

Local Open Scope Z_scope.


(** ** Constants *)

(** Linux error numbers ([asm-generic/errno-base.h]). *)
Definition ENOMEM : Z := 12.
Definition EINVAL : Z := 22.
Definition ENOSPC : Z := 28.

(** [#define SECTOR_SHIFT 9] *)
Definition SECTOR_SHIFT : Z := 9.

(** A C condition: any value but zero. *)
Definition c_true (z : Z) : bool := negb (z =? 0).

(** Width of [uint64_t], [unsigned long long] and [atomic64_t]. *)
Definition u64 (z : Z) : Z := z mod 2 ^ 64.

(** The constants that the two source files use and that are declared in
    headers outside of them: the request flag masks of the kernel
    ([linux/blk_types.h]), the event flag bits, the sizes of the two event
    structures and of the [device_name] array ([iotrace_event.h]), and the
    ceiling on the total buffer size ([procfs.h]). *)
Record platform := {
  REQ_DISCARD : Z;
  REQ_FLUSH : Z;
  REQ_FUA : Z;
  iotrace_event_flag_flush : Z;
  iotrace_event_flag_fua : Z;
  sizeof_iotrace_event : Z;
  sizeof_iotrace_event_device_desc : Z;
  sizeof_device_name : nat;
  iotrace_procfs_max_buffer_size_mb : Z
}.

(** ** Data *)

(** [struct bio], the fields that the macros of [bio.h] read. *)
Record bio := {
  bi_sector : Z;
  bi_rw : Z;
  bi_size : Z
}.

Inductive iotrace_event_type :=
| iotrace_event_type_device_desc
| iotrace_event_type_io.

Inductive iotrace_event_operation :=
| iotrace_event_operation_rd
| iotrace_event_operation_wr
| iotrace_event_operation_discard.

(** Modelled from the spec: [struct iotrace_event_hdr] is declared in
    [iotrace_event.h], which is not among the sources; the header holds the
    event kind, the sequence id, the timestamp in nanoseconds and the
    encoded total length. *)
Record iotrace_event_hdr := {
  hdr_type : iotrace_event_type;
  hdr_sid : Z;
  hdr_timestamp : Z;
  hdr_size : Z
}.

(** Modelled from the spec: [iotrace_event_init_hdr] is defined in
    [iotrace_event.h], which is not among the sources; it fills the four
    fields of the header from its arguments. *)
Definition iotrace_event_init_hdr (type : iotrace_event_type)
    (sid timestamp size : Z) : iotrace_event_hdr :=
  {| hdr_type := type; hdr_sid := sid;
     hdr_timestamp := timestamp; hdr_size := size |}.

(** [struct iotrace_event], the fields that [iotrace_trace_bio] assigns. *)
Record iotrace_event := {
  ev_hdr : iotrace_event_hdr;
  ev_operation : iotrace_event_operation;
  ev_flags : Z;
  ev_lba : Z;
  ev_len : Z;
  ev_io_class : Z;
  ev_dev_id : Z
}.

(** [struct iotrace_event_device_desc], the fields that
    [iotrace_trace_desc] assigns. *)
Record iotrace_event_device_desc := {
  desc_hdr : iotrace_event_hdr;
  desc_id : Z;
  desc_device_size : Z;
  desc_device_name : string
}.

(** What a trace ring holds: the records pushed into it, oldest first. *)
Inductive trace_record :=
| io_record (ev : iotrace_event)
| device_desc_record (desc : iotrace_event_device_desc).

(** The calls that leave the two source files, in the order in which they
    are made, with the result that came back. *)
Inductive extern_call :=
| call_alloc_percpu (ok : bool)
| call_free_percpu
| call_octf_trace_open (cpu : nat) (result : Z)
| call_octf_trace_close (cpu : nat)
| call_octf_trace_push (cpu : nat) (r : trace_record) (size : Z) (result : Z)
| call_wake_up (cpu : nat)
| call_register_trace_block_bio_queue (result : Z)
| call_unregister_trace_block_bio_queue
| call_iotrace_bdev_remove_all
| call_iotrace_procfs_trace_file_alloc (cpu : nat) (size : Z) (result : Z).

(** Modelled from the spec: [struct iotrace_context] and its [trace_state]
    are declared in [internal/context.h] and [internal/io_trace.h], which
    are not among the sources. The record holds the fields that
    [io_trace.c] uses, and the part of the kernel that the code acts on.

    - [sid]: the value of the [atomic64_t], read as [uint64_t].
    - [traces]: [None] when the per-processor table is not allocated (never
      allocated, or released by [free_percpu]); [Some T] when it is, [T]
      being the processors whose cell holds an open producer handle (a
      cell outside [T] holds the null handle).
    - [clients], [buffer_size]: the fields [clients] and [size].
    - [trace_ring]: for each processor the [trace_ring] of its proc file;
      no entry when the pointer is null.
    - [probe]: whether [bio_queue_event] is registered on the tracepoint.
    - [calls]: the external calls made so far, oldest first.

    The specification gives [clients] as a count, which the code tests
    against zero and moves by one, and the sizes as 64-bit unsigned
    numbers: [clients] is an integer, [buffer_size] an [uint64_t]. *)
Record iotrace_context := {
  sid : Z;
  traces : option (gset nat);
  clients : Z;
  buffer_size : Z;
  trace_ring : gmap nat (list trace_record);
  probe : bool;
  calls : list extern_call
}.

(** What the surroundings answer during one call of the interface. The
    online mask of a running kernel is never empty, the processor that
    runs the call being in it: it is given by its first processor and the
    others, in the order in which [for_each_online_cpu] visits them. *)
Record env := {
  cpu_online_first : nat;
  cpu_online_others : list nat;
  alloc_percpu_ok : bool;
  octf_trace_open_result : nat → Z;
  register_result : Z;
  uninitialized_result : Z;
  trace_file_alloc_result : nat → Z;
  ktime_ns : Z;
  octf_trace_push_result : Z;
  dss_io_class : Z
}.

Definition cpu_online (e : env) : list nat :=
  cpu_online_first e :: cpu_online_others e.
Arguments cpu_online : simpl never.

(** [num_online_cpus()] *)
Definition num_online_cpus (e : env) : Z := Z.of_nat (length (cpu_online e)).

(** ** The monad of the embedding

    A computation transforms the context and returns a value, or stops
    ([None]) where it reads or writes a cell of a per-processor table that
    is not allocated, which the C code does not guard against. *)

Definition M (A : Type) : Type := iotrace_context → option (A * iotrace_context).

#[global] Instance M_ret : MRet M := λ A a c, Some (a, c).
#[global] Instance M_bind : MBind M := λ A B f m c,
  match m c with
  | Some (a, c') => f a c'
  | None => None
  end.

Definition invalid_access {A} : M A := λ _, None.
Definition gets {A} (f : iotrace_context → A) : M A := λ c, Some (f c, c).
Definition modify (f : iotrace_context → iotrace_context) : M unit :=
  λ c, Some (tt, f c).

Definition set_sid (v : Z) (c : iotrace_context) : iotrace_context :=
  {| sid := v; traces := traces c; clients := clients c;
     buffer_size := buffer_size c; trace_ring := trace_ring c;
     probe := probe c; calls := calls c |}.
Definition set_traces (v : option (gset nat)) (c : iotrace_context) :=
  {| sid := sid c; traces := v; clients := clients c;
     buffer_size := buffer_size c; trace_ring := trace_ring c;
     probe := probe c; calls := calls c |}.
Definition set_clients (v : Z) (c : iotrace_context) :=
  {| sid := sid c; traces := traces c; clients := v;
     buffer_size := buffer_size c; trace_ring := trace_ring c;
     probe := probe c; calls := calls c |}.
Definition set_buffer_size (v : Z) (c : iotrace_context) :=
  {| sid := sid c; traces := traces c; clients := clients c;
     buffer_size := v; trace_ring := trace_ring c;
     probe := probe c; calls := calls c |}.
Definition set_trace_ring (v : gmap nat (list trace_record))
    (c : iotrace_context) :=
  {| sid := sid c; traces := traces c; clients := clients c;
     buffer_size := buffer_size c; trace_ring := v;
     probe := probe c; calls := calls c |}.
Definition set_probe (v : bool) (c : iotrace_context) :=
  {| sid := sid c; traces := traces c; clients := clients c;
     buffer_size := buffer_size c; trace_ring := trace_ring c;
     probe := v; calls := calls c |}.
Definition set_calls (v : list extern_call) (c : iotrace_context) :=
  {| sid := sid c; traces := traces c; clients := clients c;
     buffer_size := buffer_size c; trace_ring := trace_ring c;
     probe := probe c; calls := v |}.

Definition record_call (x : extern_call) : M unit :=
  modify (λ c, set_calls (calls c ++ [x]) c).

(** ** What the code calls *)

(** [alloc_percpu(octf_trace_t)]: on success the table is fresh and zeroed,
    so that every cell holds the null handle. *)
Definition alloc_percpu (e : env) : M bool :=
  record_call (call_alloc_percpu (alloc_percpu_ok e));;
  modify (set_traces (if alloc_percpu_ok e then Some ∅ else None));;
  mret (alloc_percpu_ok e).

Definition free_percpu : M unit :=
  record_call call_free_percpu;;
  modify (set_traces None).

(** Modelled from the spec: the trace library is not among the sources.
    Opening binds a producer handle to the ring of the processor and stores
    it in the processor's cell; a failed open leaves the cell as it was. *)
Definition octf_trace_open (e : env) (cpu : nat) : M Z :=
  t ← gets traces;
  match t with
  | None => invalid_access
  | Some T =>
      let result := octf_trace_open_result e cpu in
      record_call (call_octf_trace_open cpu result);;
      (if result =? 0
       then modify (set_traces (Some ({[cpu]} ∪ T)))
       else mret tt);;
      mret result
  end.

(** Modelled from the spec: closing releases the binding and is idempotent;
    the cell holds the null handle afterwards. *)
Definition octf_trace_close (cpu : nat) : M unit :=
  t ← gets traces;
  match t with
  | None => invalid_access
  | Some T =>
      record_call (call_octf_trace_close cpu);;
      modify (set_traces (Some (T ∖ {[cpu]})))
  end.

(** [register_trace_block_bio_queue(bio_queue_event, NULL)] *)
Definition register_trace_block_bio_queue (e : env) : M Z :=
  record_call (call_register_trace_block_bio_queue (register_result e));;
  (if register_result e =? 0 then modify (set_probe true) else mret tt);;
  mret (register_result e).

(** [unregister_trace_block_bio_queue(bio_queue_event, NULL)] *)
Definition unregister_trace_block_bio_queue : M unit :=
  record_call call_unregister_trace_block_bio_queue;;
  modify (set_probe false).

(** [atomic64_inc_return(&state->sid)] *)
Definition atomic64_inc_return : M Z :=
  modify (λ c, set_sid (u64 (sid c + 1)) c);;
  gets sid.

(** [*per_cpu_ptr(state->traces, cpu)]: the handle in the cell of the
    processor, [true] for an open handle and [false] for the null one. *)
Definition per_cpu_trace (cpu : nat) : M bool :=
  t ← gets traces;
  match t with
  | None => invalid_access
  | Some T => mret (bool_decide (cpu ∈ T))
  end.

(** Modelled from the spec: the trace library is not among the sources. A
    push through an open handle is accepted or refused by the library
    (refused when the ring lacks room); an accepted record is appended to
    the ring that the handle is bound to, a refused one leaves the ring as
    it was. The null handle is refused. *)
Definition octf_trace_push (e : env) (trace : bool) (cpu : nat)
    (r : trace_record) (size : Z) : M Z :=
  let result := if trace then octf_trace_push_result e else - EINVAL in
  record_call (call_octf_trace_push cpu r size result);;
  (if result =? 0
   then modify (λ c, set_trace_ring (alter (λ l, l ++ [r]) cpu (trace_ring c)) c)
   else mret tt);;
  mret result.

(** Modelled from the spec: [iotrace_procfs_trace_file_alloc] is defined in
    [procfs.c], which is not among the sources. It allocates the backing
    storage of one processor; a failure is reported and leaves the file
    without the new storage. *)
Definition iotrace_procfs_trace_file_alloc (e : env) (cpu : nat) (size : Z)
    : M Z :=
  let result := trace_file_alloc_result e cpu in
  record_call (call_iotrace_procfs_trace_file_alloc cpu size result);;
  (if result =? 0
   then modify (λ c, set_trace_ring (<[cpu := []]> (trace_ring c)) c)
   else mret tt);;
  mret result.

(** [strnlen]: the characters of a C string are those before its
    terminator. *)
Fixpoint strnlen (s : string) (maxlen : nat) : nat :=
  match maxlen, s with
  | S m, String _ rest => S (strnlen rest m)
  | _, _ => O
  end.

(** [bio_data_dir(bio)] and [WRITE] of [linux/fs.h] and [linux/bio.h]. *)
Definition WRITE : Z := 1.
Definition bio_data_dir (b : bio) : Z := Z.land (bi_rw b) 1.

(** ** The bio macros *)

(** The macros of [internal/bio.h]. *)
Definition IOTRACE_BIO_OP_FLAGS (b : bio) : Z := bi_rw b.
Definition IOTRACE_BIO_IS_WRITE (b : bio) : bool := bio_data_dir b =? WRITE.
Definition IOTRACE_BIO_IS_DISCARD (p : platform) (b : bio) : Z :=
  Z.land (IOTRACE_BIO_OP_FLAGS b) (REQ_DISCARD p).
Definition IOTRACE_BIO_BISIZE (b : bio) : Z := bi_size b.
Definition IOTRACE_BIO_BISECTOR (b : bio) : Z := bi_sector b.
Definition IOTRACE_BIO_IS_FLUSH (p : platform) (b : bio) : Z :=
  Z.land (IOTRACE_BIO_OP_FLAGS b) (REQ_FLUSH p).
Definition IOTRACE_BIO_IS_FUA (p : platform) (b : bio) : Z :=
  Z.land (IOTRACE_BIO_OP_FLAGS b) (REQ_FUA p).

(** ** Event emitters *)

Definition iotrace_notify_of_new_events (cpu : nat) : M unit :=
  record_call (call_wake_up cpu).

(** The event that [iotrace_trace_bio] fills in. *)
Definition bio_event (p : platform) (e : env) (sid dev_id : Z) (b : bio)
    : iotrace_event :=
  let hdr := iotrace_event_init_hdr iotrace_event_type_io sid (ktime_ns e)
               (sizeof_iotrace_event p) in
  let operation :=
    if c_true (IOTRACE_BIO_IS_DISCARD p b) then iotrace_event_operation_discard
    else if IOTRACE_BIO_IS_WRITE b then iotrace_event_operation_wr
    else iotrace_event_operation_rd in
  let flags := 0 in
  let flags :=
    if c_true (IOTRACE_BIO_IS_FLUSH p b)
    then Z.lor flags (iotrace_event_flag_flush p) else flags in
  let flags :=
    if c_true (IOTRACE_BIO_IS_FUA p b)
    then Z.lor flags (iotrace_event_flag_fua p) else flags in
  {| ev_hdr := hdr;
     ev_operation := operation;
     ev_flags := flags;
     ev_lba := IOTRACE_BIO_BISECTOR b;
     ev_len := Z.shiftr (IOTRACE_BIO_BISIZE b) SECTOR_SHIFT;
     ev_io_class := dss_io_class e;
     ev_dev_id := dev_id |}.

Definition iotrace_trace_bio (p : platform) (e : env) (cpu : nat)
    (dev_id : Z) (b : bio) : M unit :=
  sid ← atomic64_inc_return;
  let ev := bio_event p e sid dev_id b in
  trace ← per_cpu_trace cpu;
  octf_trace_push e trace cpu (io_record ev) (sizeof_iotrace_event p);;
  iotrace_notify_of_new_events cpu.

(** The descriptor that [iotrace_trace_desc] fills in once the name is
    known to fit; [strcpy] copies the characters of the name. *)
Definition desc_event (p : platform) (e : env) (sid dev_id : Z)
    (dev_name : string) (dev_size : Z) : iotrace_event_device_desc :=
  {| desc_hdr := iotrace_event_init_hdr iotrace_event_type_device_desc sid
                   (ktime_ns e) (sizeof_iotrace_event_device_desc p);
     desc_id := dev_id;
     desc_device_size := dev_size;
     desc_device_name := dev_name |}.

Definition iotrace_trace_desc (p : platform) (e : env) (cpu : nat)
    (dev_id : Z) (dev_name : string) (dev_size : Z) : M Z :=
  trace ← per_cpu_trace cpu;
  sid ← atomic64_inc_return;
  let dev_name_size := sizeof_device_name p in
  if (dev_name_size <=? strnlen dev_name dev_name_size)%nat
  then mret (- ENOSPC)
  else
    let desc := desc_event p e sid dev_id dev_name dev_size in
    result ← octf_trace_push e trace cpu (device_desc_record desc)
               (sizeof_iotrace_event_device_desc p);
    iotrace_notify_of_new_events cpu;;
    mret result.

(** ** Tracer life cycle *)

(** [for_each_online_cpu (i) octf_trace_close(per_cpu_ptr(traces, i));] *)
Fixpoint close_each (cpus : list nat) : M unit :=
  match cpus with
  | [] => mret tt
  | i :: rest => octf_trace_close i;; close_each rest
  end.

Definition deinit_tracers (e : env) : M unit :=
  close_each (cpu_online e);;
  free_percpu.

(** The first loop of [init_tracers]; [result] is the value of the local
    variable when the iteration starts, and the value returned is the one
    it has when the loop is left. *)
Fixpoint open_each (e : env) (cpus : list nat) (result : Z) : M Z :=
  match cpus with
  | [] => mret result
  | i :: rest =>
      ring ← gets (λ c, trace_ring c !! i);
      match ring with
      | None => mret (- EINVAL)
      | Some _ =>
          result ← octf_trace_open e i;
          if c_true result then mret result
          else open_each e rest result
      end
  end.

(** [result] is not initialised in the C function: it would be read
    before being assigned only if the loop did not run once, and is given
    the value that the surroundings left there. *)
Definition init_tracers (e : env) : M Z :=
  ok ← alloc_percpu e;
  if negb ok then mret (- ENOMEM)
  else
    result ← open_each e (cpu_online e) (uninitialized_result e);
    if c_true result then
      close_each (cpu_online e);;
      free_percpu;;
      mret result
    else mret 0.

(** ** Buffer sizing *)

Definition iotrace_set_buffer_size (p : platform) (e : env) (size_mb : Z)
    : M Z :=
  let size := u64 (u64 (size_mb * 1024) * 1024) / num_online_cpus e in
  if (iotrace_procfs_max_buffer_size_mb p <? size_mb) || (size =? 0)
  then mret (- EINVAL)
  else
    modify (set_buffer_size size);;
    mret 0.

Definition iotrace_get_buffer_size (e : env) : M Z :=
  gets (λ c, u64 (buffer_size c * num_online_cpus e) / 1024 / 1024).

(** The loop of [iotrace_init_buffers]. *)
Fixpoint alloc_each (e : env) (cpus : list nat) (result : Z) : M Z :=
  match cpus with
  | [] => mret result
  | i :: rest =>
      size ← gets buffer_size;
      result ← iotrace_procfs_trace_file_alloc e i size;
      if c_true result then mret result
      else alloc_each e rest result
  end.

Definition iotrace_init_buffers (p : platform) (e : env) (size : Z) : M Z :=
  c ← gets clients;
  if c_true c then mret (- EINVAL)
  else
    result ← iotrace_set_buffer_size p e size;
    if c_true result then mret result
    else alloc_each e (cpu_online e) 0.

(** ** Clients *)

Definition iotrace_attach_client (e : env) : M Z :=
  c ← gets clients;
  if negb (c_true c) then
    result ← init_tracers e;
    if c_true result then mret result
    else
      result ← register_trace_block_bio_queue e;
      if c_true result then
        deinit_tracers e;;
        mret result
      else
        modify (λ c, set_clients (clients c + 1) c);;
        mret result
  else
    modify (λ c, set_clients (clients c + 1) c);;
    mret 0.

Definition iotrace_detach_client (e : env) : M unit :=
  modify (λ c, set_clients (clients c - 1) c);;
  c ← gets clients;
  if c_true c then mret tt
  else
    unregister_trace_block_bio_queue;;
    record_call call_iotrace_bdev_remove_all;;
    deinit_tracers e.

(** ** Sequences of client calls *)

Inductive client_call :=
| attach_client (e : env)
| detach_client (e : env).

Definition do_client_call (k : client_call) : M Z :=
  match k with
  | attach_client e => iotrace_attach_client e
  | detach_client e => iotrace_detach_client e;; mret 0
  end.

(** The result of each call and the context it leaves, in order. *)
Fixpoint run_clients (ks : list client_call) (c : iotrace_context)
    : option (list (Z * iotrace_context)) :=
  match ks with
  | [] => Some []
  | k :: rest =>
      match do_client_call k c with
      | None => None
      | Some (r, c') =>
          match run_clients rest c' with
          | None => None
          | Some tr => Some ((r, c') :: tr)
          end
      end
  end.

(** No prefix of the calls holds more detaches than attaches that returned
    zero; [credit] is the surplus of successful attaches so far. *)
Fixpoint detach_within_attach (credit : nat) (ks : list client_call)
    (results : list Z) : bool :=
  match ks, results with
  | attach_client _ :: ks', r :: results' =>
      detach_within_attach (if r =? 0 then S credit else credit) ks' results'
  | detach_client _ :: ks', _ :: results' =>
      match credit with
      | O => false
      | S credit' => detach_within_attach credit' ks' results'
      end
  | _, _ => true
  end.

(** The context that a run of calls ends in, and the client counts along
    it. *)
Fixpoint final_context (c : iotrace_context)
    (tr : list (Z * iotrace_context)) : iotrace_context :=
  match tr with
  | [] => c
  | (_, c') :: rest => final_context c' rest
  end.

Definition counts (tr : list (Z * iotrace_context)) : list Z :=
  map (λ rc, clients rc.2) tr.

(** Steps of the client count from zero to a positive value, and from a
    positive value to zero, along the counts that follow [prev]. *)
Fixpoint rises (prev : Z) (counts : list Z) : nat :=
  match counts with
  | [] => O
  | n :: rest =>
      if (prev =? 0) && (0 <? n) then S (rises n rest) else rises n rest
  end.

Fixpoint falls (prev : Z) (counts : list Z) : nat :=
  match counts with
  | [] => O
  | n :: rest =>
      if (0 <? prev) && (n =? 0) then S (falls n rest) else falls n rest
  end.

(** Registrations of the probe that took effect, and unregistrations. *)
Definition is_registration (x : extern_call) : bool :=
  match x with
  | call_register_trace_block_bio_queue r => r =? 0
  | _ => false
  end.

Definition is_unregistration (x : extern_call) : bool :=
  match x with
  | call_unregister_trace_block_bio_queue => true
  | _ => false
  end.

Fixpoint count_calls (f : extern_call → bool) (l : list extern_call) : nat :=
  match l with
  | [] => O
  | x :: rest => if f x then S (count_calls f rest) else count_calls f rest
  end.

Definition registrations (l : list extern_call) : nat :=
  count_calls is_registration l.

Definition unregistrations (l : list extern_call) : nat :=
  count_calls is_unregistration l.

(** The invariant of the data model: the count is not negative, and the
    probe is registered and the handle table allocated exactly when it is
    positive. *)
Definition lifecycle_invariant (c : iotrace_context) : Prop :=
  0 ≤ clients c ∧
  (probe c = true ↔ 0 < clients c) ∧
  (is_Some (traces c) ↔ 0 < clients c).

(** The state [Idle]. *)
Definition idle (c : iotrace_context) : Prop :=
  clients c = 0 ∧ probe c = false ∧ traces c = None.

(** What the life cycle keeps whatever the calls: the probe is registered
    and the table allocated when the count is positive, and neither when
    it is not. *)
Definition coherent (c : iotrace_context) : Prop :=
  (0 < clients c → probe c = true ∧ is_Some (traces c)) ∧
  (clients c ≤ 0 → probe c = false ∧ traces c = None).

(** ** Sequences of emit calls *)

Inductive emit_call :=
| emit_io (e : env) (cpu : nat) (dev_id : Z) (b : bio)
| emit_device_desc (e : env) (cpu : nat) (dev_id : Z) (dev_name : string)
    (dev_size : Z).

Definition do_emit_call (p : platform) (k : emit_call) : M Z :=
  match k with
  | emit_io e cpu dev_id b => iotrace_trace_bio p e cpu dev_id b;; mret 0
  | emit_device_desc e cpu dev_id dev_name dev_size =>
      iotrace_trace_desc p e cpu dev_id dev_name dev_size
  end.

(** The sequence id that each call drew (the counter as the call leaves
    it), in order, and the final context. *)
Fixpoint run_emits (p : platform) (ks : list emit_call) (c : iotrace_context)
    : option (list Z * iotrace_context) :=
  match ks with
  | [] => Some ([], c)
  | k :: rest =>
      match do_emit_call p k c with
      | None => None
      | Some (_, c') =>
          match run_emits p rest c' with
          | None => None
          | Some (ids, c'') => Some (sid c' :: ids, c'')
          end
      end
  end.

(** The sequence id in the header of a record. *)
Definition record_sid (r : trace_record) : Z :=
  match r with
  | io_record ev => hdr_sid (ev_hdr ev)
  | device_desc_record desc => hdr_sid (desc_hdr desc)
  end.

(** The sequence ids of the records handed to the trace library. *)
Fixpoint pushed_sids (l : list extern_call) : list Z :=
  match l with
  | [] => []
  | call_octf_trace_push _ r _ _ :: rest => record_sid r :: pushed_sids rest
  | _ :: rest => pushed_sids rest
  end.

(** A descriptor call that the length of its name makes return
    [-ENOSPC]. *)
Definition rejected (p : platform) (k : emit_call) : bool :=
  match k with
  | emit_io _ _ _ _ => false
  | emit_device_desc _ _ _ dev_name _ =>
      (sizeof_device_name p <=? String.length dev_name)%nat
  end.

(** Of the ids drawn by the calls, those of the calls that are not
    rejected. *)
Fixpoint carried (p : platform) (ks : list emit_call) (ids : list Z)
    : list Z :=
  match ks, ids with
  | k :: ks', i :: ids' =>
      if rejected p k then carried p ks' ids' else i :: carried p ks' ids'
  | _, _ => []
  end.

(** The ids [first + 1], ..., [first + n]. *)
Definition following (first : Z) (n : nat) : list Z :=
  map (λ k, first + Z.of_nat k) (seq 1 n).

(** ** Emit calls that overlap

    Emit calls on different processors run at the same time. What they
    share is the counter, which each moves in one atomic step, and nothing
    else: a call is cut where it has drawn its id, and the two parts of
    the calls in flight are taken in any order. *)

(** A call that has drawn its id: the call, the handle that
    [iotrace_trace_desc] read before drawing, and the id. *)
Record in_flight := {
  fl_call : emit_call;
  fl_trace : bool;
  fl_sid : Z
}.

(** A call up to and including [atomic64_inc_return];
    [iotrace_trace_bio] reads the handle only afterwards. *)
Definition emit_start (k : emit_call) : M in_flight :=
  match k with
  | emit_io _ _ _ _ =>
      sid ← atomic64_inc_return;
      mret {| fl_call := k; fl_trace := false; fl_sid := sid |}
  | emit_device_desc _ cpu _ _ _ =>
      trace ← per_cpu_trace cpu;
      sid ← atomic64_inc_return;
      mret {| fl_call := k; fl_trace := trace; fl_sid := sid |}
  end.

(** The rest of the call. *)
Definition emit_finish (p : platform) (f : in_flight) : M Z :=
  match fl_call f with
  | emit_io e cpu dev_id b =>
      let ev := bio_event p e (fl_sid f) dev_id b in
      trace ← per_cpu_trace cpu;
      octf_trace_push e trace cpu (io_record ev) (sizeof_iotrace_event p);;
      iotrace_notify_of_new_events cpu;;
      mret 0
  | emit_device_desc e cpu dev_id dev_name dev_size =>
      let dev_name_size := sizeof_device_name p in
      if (dev_name_size <=? strnlen dev_name dev_name_size)%nat
      then mret (- ENOSPC)
      else
        let desc := desc_event p e (fl_sid f) dev_id dev_name dev_size in
        result ← octf_trace_push e (fl_trace f) cpu (device_desc_record desc)
                   (sizeof_iotrace_event_device_desc p);
        iotrace_notify_of_new_events cpu;;
        mret result
  end.

(** One step of an interleaving: a new call draws its id, or the [n]-th
    of the calls in flight runs to its end (nothing happens when there is
    no such call). *)
Inductive action :=
| act_start (k : emit_call)
| act_finish (n : nat).

(** The ids drawn, in order, the calls still in flight and the context. *)
Fixpoint run_schedule (p : platform) (acts : list action)
    (pend : list in_flight) (c : iotrace_context)
    : option (list Z * list in_flight * iotrace_context) :=
  match acts with
  | [] => Some ([], pend, c)
  | act_start k :: rest =>
      match emit_start k c with
      | None => None
      | Some (f, c') =>
          match run_schedule p rest (pend ++ [f]) c' with
          | None => None
          | Some (ids, pend', c'') => Some (fl_sid f :: ids, pend', c'')
          end
      end
  | act_finish n :: rest =>
      match pend !! n with
      | None => run_schedule p rest pend c
      | Some f =>
          match emit_finish p f c with
          | None => None
          | Some (_, c') => run_schedule p rest (delete n pend) c'
          end
      end
  end.

(** The number of calls that a schedule starts. *)
Fixpoint starts (acts : list action) : nat :=
  match acts with
  | [] => O
  | act_start _ :: rest => S (starts rest)
  | act_finish _ :: rest => starts rest
  end.

(** ** What the calls leave *)

(** The context after tracer calls [l] that leave the table as [T]. *)
Definition with_tracers (T : option (gset nat)) (l : list extern_call)
    (c : iotrace_context) : iotrace_context :=
  set_calls (calls c ++ l) (set_traces T c).

(** A processor at which the first loop of [init_tracers] goes on: its
    ring is there and the open returns zero. *)
Definition opens_ok (e : env) (c : iotrace_context) (i : nat) : Prop :=
  is_Some (trace_ring c !! i) ∧ octf_trace_open_result e i = 0.

#[local] Instance opens_ok_dec e c i : Decision (opens_ok e c i) :=
  and_dec _ _.

Definition open_calls (cpus : list nat) : list extern_call :=
  map (λ i, call_octf_trace_open i 0) cpus.

Definition close_calls (cpus : list nat) : list extern_call :=
  map call_octf_trace_close cpus.

(** Where the first loop of [init_tracers] stops at processor [i]: the
    value of [result] there, and the open call that was made at [i]. *)
Definition stop_result (e : env) (c : iotrace_context) (i : nat) : Z :=
  match trace_ring c !! i with
  | None => - EINVAL
  | Some _ => octf_trace_open_result e i
  end.

Definition stop_calls (e : env) (c : iotrace_context) (i : nat)
    : list extern_call :=
  match trace_ring c !! i with
  | None => []
  | Some _ => [call_octf_trace_open i (octf_trace_open_result e i)]
  end.

(** What a push through the cell of processor [cpu] returns when the open
    handles are [T], and the context it leaves. *)
Definition push_outcome (e : env) (T : gset nat) (cpu : nat) : Z :=
  if bool_decide (cpu ∈ T) then octf_trace_push_result e else - EINVAL.

Definition after_push (cpu : nat) (r : trace_record) (size result : Z)
    (c : iotrace_context) : iotrace_context :=
  set_trace_ring
    (if result =? 0 then alter (λ l, l ++ [r]) cpu (trace_ring c)
     else trace_ring c)
    (set_calls (calls c ++ [call_octf_trace_push cpu r size result]) c).

(** The total that the specification gives for a size read back after it
    was set to [X] MiB on [P] processors. *)
Definition spec_round_trip (X P : Z) : Z := X * 2 ^ 20 / P * P / 2 ^ 20.

(** ** Instances for the examples *)

Definition example_platform : platform :=
  {| REQ_DISCARD := 2 ^ 7;
     REQ_FLUSH := 2 ^ 12;
     REQ_FUA := 2 ^ 11;
     iotrace_event_flag_flush := 1;
     iotrace_event_flag_fua := 2;
     sizeof_iotrace_event := 64;
     sizeof_iotrace_event_device_desc := 96;
     sizeof_device_name := 8;
     iotrace_procfs_max_buffer_size_mb := 1024 |}.

(** Four online processors on which every call of the surroundings
    succeeds. *)
Definition example_env : env :=
  {| cpu_online_first := 0;
     cpu_online_others := [1; 2; 3]%nat;
     alloc_percpu_ok := true;
     octf_trace_open_result := λ _, 0;
     register_result := 0;
     uninitialized_result := 0;
     trace_file_alloc_result := λ _, 0;
     ktime_ns := 1000;
     octf_trace_push_result := 0;
     dss_io_class := 0 |}.

(** The same, the registration of the probe being refused. *)
Definition example_env_unregistered : env :=
  {| cpu_online_first := 0;
     cpu_online_others := [1; 2; 3]%nat;
     alloc_percpu_ok := true;
     octf_trace_open_result := λ _, 0;
     register_result := - 16;
     uninitialized_result := 0;
     trace_file_alloc_result := λ _, 0;
     ktime_ns := 1000;
     octf_trace_push_result := 0;
     dss_io_class := 0 |}.

(** The example surroundings, the open failing on processor 1. *)
Definition example_env_open_fails : env :=
  {| cpu_online_first := 0;
     cpu_online_others := [1; 2; 3]%nat;
     alloc_percpu_ok := true;
     octf_trace_open_result := λ i, if (i =? 1)%nat then - ENOMEM else 0;
     register_result := 0;
     uninitialized_result := 0;
     trace_file_alloc_result := λ _, 0;
     ktime_ns := 1000;
     octf_trace_push_result := 0;
     dss_io_class := 0 |}.

(** The example surroundings, the ring refusing the push. *)
Definition example_env_full : env :=
  {| cpu_online_first := 0;
     cpu_online_others := [1; 2; 3]%nat;
     alloc_percpu_ok := true;
     octf_trace_open_result := λ _, 0;
     register_result := 0;
     uninitialized_result := 0;
     trace_file_alloc_result := λ _, 0;
     ktime_ns := 2000;
     octf_trace_push_result := - ENOSPC;
     dss_io_class := 0 |}.

(** Seven online processors on which every call of the surroundings
    succeeds. *)
Definition example_env_seven : env :=
  {| cpu_online_first := 0;
     cpu_online_others := [1; 2; 3; 4; 5; 6]%nat;
     alloc_percpu_ok := true;
     octf_trace_open_result := λ _, 0;
     register_result := 0;
     uninitialized_result := 0;
     trace_file_alloc_result := λ _, 0;
     ktime_ns := 1000;
     octf_trace_push_result := 0;
     dss_io_class := 0 |}.

(** The context after the module is loaded and the four rings allocated. *)
Definition example_context : iotrace_context :=
  {| sid := 0;
     traces := None;
     clients := 0;
     buffer_size := 4 * 2 ^ 20;
     trace_ring := list_to_map [(0, []); (1, []); (2, []); (3, [])]%nat;
     probe := false;
     calls := [] |}.

(** The example context, the ring of processor 2 missing. *)
Definition example_context_unbacked : iotrace_context :=
  set_trace_ring (delete 2%nat (trace_ring example_context)) example_context.

(** The example context with one client attached on [example_env]. *)
Definition example_context_active : iotrace_context :=
  {| sid := 41;
     traces := Some (list_to_set [0; 1; 2; 3]%nat);
     clients := 1;
     buffer_size := 4 * 2 ^ 20;
     trace_ring := list_to_map [(0, []); (1, []); (2, []); (3, [])]%nat;
     probe := true;
     calls := [] |}.

(** Two clients come and go, an attach is refused, a client comes. *)
Definition example_calls : list client_call :=
  [attach_client example_env; attach_client example_env_unregistered;
   detach_client example_env; detach_client example_env;
   attach_client example_env_unregistered; attach_client example_env].

(** A write of 8 sectors at sector 1024 with the flush flag, a read and a
    discard with the force-unit-access flag, under [example_platform]. *)
Definition example_bio_write_flush : bio :=
  {| bi_sector := 1024; bi_rw := 1 + 2 ^ 12; bi_size := 4096 |}.
Definition example_bio_read : bio :=
  {| bi_sector := 8; bi_rw := 0; bi_size := 1000 |}.
Definition example_bio_discard_fua : bio :=
  {| bi_sector := 0; bi_rw := 1 + 2 ^ 7 + 2 ^ 11; bi_size := 512 |}.

(** Emit calls from several processors, one descriptor with a name that
    is too long. *)
Definition example_emits : list emit_call :=
  [emit_device_desc example_env 0%nat 7 "nvme0n1" 4096;
   emit_io example_env 2%nat 7 example_bio_write_flush;
   emit_device_desc example_env 1%nat 7 "nvme0n1p" 4096;
   emit_io example_env_full 3%nat 7 example_bio_read;
   emit_io example_env 2%nat 7 example_bio_discard_fua].

(** Three calls on three processors overlap; the first to start is the
    last to push. *)
Definition example_schedule : list action :=
  [act_start (emit_io example_env 0%nat 7 example_bio_write_flush);
   act_start (emit_device_desc example_env 1%nat 7 "nvme0n1" 4096);
   act_start (emit_io example_env 2%nat 7 example_bio_read);
   act_finish 2; act_finish 1; act_finish 0].

(** ** The probe

    What the kernel hands to [bio_queue_event] and answers during one call
    of it: the processor that [get_cpu] returns, whether
    [iotrace_bdev_is_added] finds the queue among the traced devices, the
    device number that [disk_devt] gives for the disk of the bio, the bio,
    and the answers to the emitter. *)

Record probe_call := {
  pc_cpu : nat;
  pc_bdev_is_added : bool;
  pc_disk_devt : Z;
  pc_bio : bio;
  pc_env : env
}.

(** [get_cpu] and [put_cpu] keep the caller on its processor from the one
    to the other and leave the context alone. *)
Definition bio_queue_event (p : platform) (k : probe_call) : M unit :=
  let cpu := pc_cpu k in
  if pc_bdev_is_added k then
    let dev_id := pc_disk_devt k in
    iotrace_trace_bio p (pc_env k) cpu dev_id (pc_bio k)
  else mret tt.

(** ** Sequences of life cycle and sizing calls *)

Inductive api_call :=
| api_client (k : client_call)
| api_init_buffers (e : env) (size_mb : Z).

Definition do_api_call (p : platform) (a : api_call) : M Z :=
  match a with
  | api_client k => do_client_call k
  | api_init_buffers e size_mb => iotrace_init_buffers p e size_mb
  end.

(** The result of each call and the context it leaves, in order. *)
Fixpoint run_api (p : platform) (acts : list api_call) (c : iotrace_context)
    : option (list (Z * iotrace_context)) :=
  match acts with
  | [] => Some []
  | a :: rest =>
      match do_api_call p a c with
      | None => None
      | Some (r, c') =>
          match run_api p rest c' with
          | None => None
          | Some tr => Some ((r, c') :: tr)
          end
      end
  end.

(** The steps of a run: each context with the one that the next call
    leaves. *)
Fixpoint steps (c : iotrace_context) (tr : list (Z * iotrace_context))
    : list (iotrace_context * iotrace_context) :=
  match tr with
  | [] => []
  | (_, c') :: rest => (c, c') :: steps c' rest
  end.

(** A computation that, where it returns, leaves the part [f] of the
    context as it found it. *)
Definition preserves {A B} (f : iotrace_context → B) (m : M A) : Prop :=
  ∀ c a c', m c = Some (a, c') → f c' = f c.

(** The counter, the size and the rings: the parts of the context that
    the life cycle leaves alone. *)
Definition sized (c : iotrace_context)
    : Z * Z * gmap nat (list trace_record) :=
  (sid c, buffer_size c, trace_ring c).

(** The count, the probe and the handle table: the parts of the context
    that the emitters and the sizing leave alone. *)
Definition attached (c : iotrace_context) : Z * bool * option (gset nat) :=
  (clients c, probe c, traces c).

(** Allocations of the handle table that succeeded, and releases. *)
Definition is_table_alloc (x : extern_call) : bool :=
  match x with
  | call_alloc_percpu ok => ok
  | _ => false
  end.

Definition is_table_free (x : extern_call) : bool :=
  match x with
  | call_free_percpu => true
  | _ => false
  end.

Definition table_allocations (l : list extern_call) : nat :=
  count_calls is_table_alloc l.

Definition table_releases (l : list extern_call) : nat :=
  count_calls is_table_free l.

(** The table that a positive client count stands for. *)
Definition table_held (c : iotrace_context) : nat :=
  if 0 <? clients c then 1%nat else 0%nat.

(** The size in bytes that [iotrace_set_buffer_size] computes for one
    processor. *)
Definition per_cpu_bytes (e : env) (size_mb : Z) : Z :=
  u64 (u64 (size_mb * 1024) * 1024) / num_online_cpus e.

(** The allocation of the trace file of processor [i] succeeds. *)
Definition allocs_ok (e : env) (i : nat) : Prop :=
  trace_file_alloc_result e i = 0.

#[global] Instance allocs_ok_dec e i : Decision (allocs_ok e i) :=
  Z.eq_dec _ _.

(** The allocations that the loop of [iotrace_init_buffers] asks for on the
    processors [cpus], with what they return. *)
Definition file_alloc_calls (e : env) (size : Z) (cpus : list nat)
    : list extern_call :=
  map (λ i, call_iotrace_procfs_trace_file_alloc i size
              (trace_file_alloc_result e i)) cpus.

(** The surroundings with another value left in the uninitialised
    variable of [init_tracers]. *)
Definition with_uninitialized_result (v : Z) (e : env) : env :=
  {| cpu_online_first := cpu_online_first e;
     cpu_online_others := cpu_online_others e;
     alloc_percpu_ok := alloc_percpu_ok e;
     octf_trace_open_result := octf_trace_open_result e;
     register_result := register_result e;
     uninitialized_result := v;
     trace_file_alloc_result := trace_file_alloc_result e;
     ktime_ns := ktime_ns e;
     octf_trace_push_result := octf_trace_push_result e;
     dss_io_class := dss_io_class e |}.

(** The example surroundings after processor 3 went offline. *)
Definition example_env_offline : env :=
  {| cpu_online_first := 0;
     cpu_online_others := [1; 2]%nat;
     alloc_percpu_ok := true;
     octf_trace_open_result := λ _, 0;
     register_result := 0;
     uninitialized_result := 0;
     trace_file_alloc_result := λ _, 0;
     ktime_ns := 1000;
     octf_trace_push_result := 0;
     dss_io_class := 0 |}.

(** The example platform with a ceiling of [2^45] MiB. *)
Definition example_platform_wide : platform :=
  {| REQ_DISCARD := 2 ^ 7;
     REQ_FLUSH := 2 ^ 12;
     REQ_FUA := 2 ^ 11;
     iotrace_event_flag_flush := 1;
     iotrace_event_flag_fua := 2;
     sizeof_iotrace_event := 64;
     sizeof_iotrace_event_device_desc := 96;
     sizeof_device_name := 8;
     iotrace_procfs_max_buffer_size_mb := 2 ^ 45 |}.

(** Four online processors, no memory for the trace file of processor 2. *)
Definition example_env_no_memory : env :=
  {| cpu_online_first := 0;
     cpu_online_others := [1; 2; 3]%nat;
     alloc_percpu_ok := true;
     octf_trace_open_result := λ _, 0;
     register_result := 0;
     uninitialized_result := 0;
     trace_file_alloc_result := λ i, if decide (i = 2%nat) then - ENOMEM else 0;
     ktime_ns := 1000;
     octf_trace_push_result := 0;
     dss_io_class := 0 |}.

(** A traced write on processor 2. *)
Definition example_probe_call : probe_call :=
  {| pc_cpu := 2;
     pc_bdev_is_added := true;
     pc_disk_devt := 7;
     pc_bio := example_bio_write_flush;
     pc_env := example_env |}.

(** Sizing, two clients, a sizing that is refused, and the clients gone. *)
Definition example_api_calls : list api_call :=
  [api_init_buffers example_env 16;
   api_client (attach_client example_env);
   api_client (attach_client example_env);
   api_init_buffers example_env 32;
   api_client (detach_client example_env);
   api_client (detach_client example_env);
   api_init_buffers example_env 32].

(** ** The version buffer

    [iotrace_trace_init] and [iotrace_trace_deinit] touch two fields of
    the context only, the version buffer and its size, which no other
    function of the file reads or writes: they are embedded over these
    two fields, with the calls of the allocator. The mutex that
    [iotrace_trace_init] initialises has no state here. *)

Definition VERSION_BUFFER_MAX_LEN : Z := 64.

(** Modelled from the spec: the version of the event format and the magic
    number are constants of [iotrace_event.h], which is not among the
    sources; the format string prints the first two as [int] and the third
    as [unsigned long long]. *)
Record event_version := {
  IOTRACE_EVENT_VERSION_MAJOR : Z;
  IOTRACE_EVENT_VERSION_MINOR : Z;
  IOTRACE_MAGIC : Z;
}.

Definition NUL : ascii := "000"%char.
Definition newline : ascii := "010"%char.

(** The conversion [%d]. *)
Definition format_d (z : Z) : list ascii :=
  String.list_ascii_of_string (pretty z).

Definition hex_digit (d : Z) : ascii :=
  match d with
  | 0 => "0" | 1 => "1" | 2 => "2" | 3 => "3" | 4 => "4" | 5 => "5"
  | 6 => "6" | 7 => "7" | 8 => "8" | 9 => "9" | 10 => "A" | 11 => "B"
  | 12 => "C" | 13 => "D" | 14 => "E" | _ => "F"
  end%char.

Fixpoint hex_digits (n : nat) (z : Z) : list ascii :=
  match n with
  | O => []
  | S m => hex_digits m (z / 16) ++ [hex_digit (z mod 16)]
  end.

(** The conversion [%016llX]: upper-case hexadecimal, filled with zeros to
    sixteen digits, which are all the digits that 64 bits have. *)
Definition format_016llX (z : Z) : list ascii := hex_digits 16 (u64 z).

(** What the format ["%d\n%d\n%016llX\n"] prints. *)
Definition version_text (v : event_version) : list ascii :=
  format_d (IOTRACE_EVENT_VERSION_MAJOR v) ++ [newline]
  ++ format_d (IOTRACE_EVENT_VERSION_MINOR v) ++ [newline]
  ++ format_016llX (IOTRACE_MAGIC v) ++ [newline].

(** The characters that the conversions print are neither the terminator
    nor the end of line. *)
Definition printable (a : ascii) : Prop := a ≠ NUL ∧ a ≠ newline.

(** [snprintf(buf, size, ...)] for the text that the format prints: with
    [size] positive, the characters of the text that fit in [size - 1]
    bytes are written and a terminator after them, the bytes behind stay
    as they were; the value returned is the length of the whole text. *)
Definition snprintf (buf : list ascii) (size : nat) (text : list ascii)
    : list ascii * Z :=
  let written := take (size - 1) text in
  (match size with
   | O => buf
   | S _ => written ++ [NUL] ++ drop (S (length written)) buf
   end,
   Z.of_nat (length text)).

(** The string that a reader of the buffer finds: the bytes before the
    first terminator. *)
Fixpoint c_string (buf : list ascii) : list ascii :=
  match buf with
  | [] => []
  | a :: rest => if decide (a = NUL) then [] else a :: c_string rest
  end.

Inductive version_call :=
| call_vzalloc (size : Z) (ok : bool)
| call_vfree.

Record version_context := {
  version_buff : option (list ascii);
  version_buff_size : Z;
  version_calls : list version_call;
}.

(** [vzalloc]: the memory, filled with zeros, or no memory. *)
Definition vzalloc (ok : bool) (size : Z) : option (list ascii) :=
  if ok then Some (replicate (Z.to_nat size) NUL) else None.

Definition iotrace_trace_init (v : event_version) (vzalloc_ok : bool)
    (c : version_context) : Z * version_context :=
  let size := VERSION_BUFFER_MAX_LEN in
  let calls := version_calls c ++ [call_vzalloc size vzalloc_ok] in
  match vzalloc vzalloc_ok size with
  | None =>
      (- ENOMEM,
       {| version_buff := None; version_buff_size := 0;
          version_calls := calls |})
  | Some buff =>
      let '(buff, result) := snprintf buff (Z.to_nat size) (version_text v) in
      (0,
       {| version_buff := Some buff; version_buff_size := size;
          version_calls := calls |})
  end.

Definition iotrace_trace_deinit (c : version_context) : version_context :=
  match version_buff c with
  | Some _ =>
      {| version_buff := None; version_buff_size := 0;
         version_calls := version_calls c ++ [call_vfree] |}
  | None => c
  end.

(** The calls of module load and unload. *)
Inductive version_op :=
| trace_init (v : event_version) (vzalloc_ok : bool)
| trace_deinit.

Definition do_version_op (o : version_op) (c : version_context)
    : version_context :=
  match o with
  | trace_init v ok => (iotrace_trace_init v ok c).2
  | trace_deinit => iotrace_trace_deinit c
  end.

Definition is_vzalloc_ok (x : version_call) : bool :=
  match x with
  | call_vzalloc _ ok => ok
  | call_vfree => false
  end.

Definition is_vfree (x : version_call) : bool :=
  match x with
  | call_vfree => true
  | _ => false
  end.

Definition run_version_ops (ops : list version_op) (c : version_context)
    : version_context :=
  foldl (λ c o, do_version_op o c) c ops.

(** Buffers that [vzalloc] gave, buffers that [vfree] released, and the
    buffer that the context holds. *)
Definition buffers_given (c : version_context) : nat :=
  length (filter (λ x, is_vzalloc_ok x) (version_calls c)).

Definition buffers_released (c : version_context) : nat :=
  length (filter (λ x, is_vfree x) (version_calls c)).

Definition buffers_held (c : version_context) : nat :=
  match version_buff c with
  | Some _ => 1
  | None => 0
  end.

(** The size is that of the buffer, and zero without one; no more buffers
    were released or are held than were given. *)
Definition version_invariant (c : version_context) : Prop :=
  match version_buff c with
  | Some buff =>
      version_buff_size c = VERSION_BUFFER_MAX_LEN ∧
      Z.of_nat (length buff) = VERSION_BUFFER_MAX_LEN
  | None => version_buff_size c = 0
  end ∧
  (buffers_released c + buffers_held c ≤ buffers_given c)%nat.

(** The context before the module is loaded. *)
Definition version_context_empty : version_context :=
  {| version_buff := None; version_buff_size := 0; version_calls := [] |}.

Definition example_version : event_version :=
  {| IOTRACE_EVENT_VERSION_MAJOR := 3;
     IOTRACE_EVENT_VERSION_MINOR := 14;
     IOTRACE_MAGIC := 0x5a5be633dc39 |}.

(** * Properties *)

(** ** The monad *)

Ltac mred :=
  repeat (progress (unfold mbind, mret, M_bind, M_ret, gets, modify,
                      record_call, invalid_access, c_true; cbn [negb])).

Ltac by_decide := apply (bool_decide_unpack _); vm_compute; exact I.

Ltac by_assoc :=
  cbn [app]; rewrite <- ?app_assoc; cbn [app]; reflexivity.

Lemma with_tracers_with_tracers T1 T2 l1 l2 c :
  with_tracers T2 l2 (with_tracers T1 l1 c) = with_tracers T2 (l1 ++ l2) c.
Proof.
  unfold with_tracers, set_calls, set_traces; simpl.
  by rewrite app_assoc.
Qed.

Lemma with_tracers_id c : with_tracers (traces c) [] c = c.
Proof.
  destruct c; unfold with_tracers, set_calls, set_traces; simpl.
  by rewrite app_nil_r.
Qed.

(** ** Tracer life cycle *)

Lemma with_tracers_eq T1 T2 l1 l2 c :
  T1 = T2 → l1 = l2 → with_tracers T1 l1 c = with_tracers T2 l2 c.
Proof. by intros -> ->. Qed.

Lemma traces_with_tracers T l c : traces (with_tracers T l c) = T.
Proof. reflexivity. Qed.

Lemma close_each_run cpus c T :
  traces c = Some T →
  close_each cpus c
  = Some (tt, with_tracers (Some (T ∖ list_to_set cpus)) (close_calls cpus) c).
Proof.
  revert c T. induction cpus as [|i rest IH]; intros c T HT.
  - simpl. mred. rewrite <- (with_tracers_id c) at 1. rewrite HT.
    do 2 f_equal. apply with_tracers_eq; [f_equal; set_solver | done].
  - simpl. unfold octf_trace_close. mred. rewrite HT. mred.
    change (set_traces (Some (T ∖ {[i]}))
              (set_calls (calls c ++ [call_octf_trace_close i]) c))
      with (with_tracers (Some (T ∖ {[i]})) [call_octf_trace_close i] c).
    erewrite IH by apply traces_with_tracers.
    rewrite with_tracers_with_tracers.
    do 2 f_equal. apply with_tracers_eq; [f_equal; set_solver | done].
Qed.

Lemma free_percpu_run c :
  free_percpu c = Some (tt, with_tracers None [call_free_percpu] c).
Proof. reflexivity. Qed.

Lemma octf_trace_open_run e i c T :
  traces c = Some T →
  octf_trace_open e i c
  = Some (octf_trace_open_result e i,
          with_tracers
            (Some (if octf_trace_open_result e i =? 0 then {[i]} ∪ T else T))
            [call_octf_trace_open i (octf_trace_open_result e i)] c).
Proof.
  intros HT. unfold octf_trace_open. mred. rewrite HT. mred.
  destruct (octf_trace_open_result e i =? 0); mred; [done |].
  unfold with_tracers, set_calls, set_traces; simpl. by rewrite HT.
Qed.

(** The first loop when every processor opens: all handles are open and
    the result is that of the last open. *)
Lemma open_each_all_ok e cpus r0 c T :
  traces c = Some T →
  Forall (opens_ok e c) cpus →
  open_each e cpus r0 c
  = Some (match cpus with [] => r0 | _ => 0 end,
          with_tracers (Some (list_to_set cpus ∪ T)) (open_calls cpus) c).
Proof.
  revert r0 c T. induction cpus as [|i rest IH]; intros r0 c T HT Hok.
  - simpl. mred. rewrite <- (with_tracers_id c) at 1. rewrite HT.
    do 2 f_equal. apply with_tracers_eq; [f_equal; set_solver | done].
  - apply Forall_cons in Hok as [[[ring Hring] Hopen] Hrest].
    simpl. mred. rewrite Hring. mred.
    rewrite (octf_trace_open_run e i c T HT), Hopen. simpl.
    erewrite IH; [| apply traces_with_tracers | done].
    rewrite with_tracers_with_tracers.
    f_equal. f_equal; [by destruct rest |].
    apply with_tracers_eq; [f_equal; set_solver | done].
Qed.

(** The first loop up to the first processor at which it stops. *)
Lemma open_each_stops e pre i post r0 c T :
  traces c = Some T →
  Forall (opens_ok e c) pre →
  ¬ opens_ok e c i →
  open_each e (pre ++ i :: post) r0 c
  = match trace_ring c !! i with
    | None =>
        Some (- EINVAL,
              with_tracers (Some (list_to_set pre ∪ T)) (open_calls pre) c)
    | Some _ =>
        Some (octf_trace_open_result e i,
              with_tracers (Some (list_to_set pre ∪ T))
                (open_calls pre
                   ++ [call_octf_trace_open i (octf_trace_open_result e i)])
                c)
    end.
Proof.
  revert r0 c T. induction pre as [|j pre IH]; intros r0 c T HT Hok Hi.
  - simpl. mred. destruct (trace_ring c !! i) as [ring|] eqn:Hring; mred.
    + rewrite (octf_trace_open_run e i c T HT).
      destruct (octf_trace_open_result e i =? 0) eqn:Hr.
      * exfalso. apply Hi. split; [by eexists | lia].
      * simpl. do 2 f_equal.
        apply with_tracers_eq; [f_equal; set_solver | done].
    + rewrite <- (with_tracers_id c) at 1. rewrite HT.
      do 2 f_equal. apply with_tracers_eq; [f_equal; set_solver | done].
  - apply Forall_cons in Hok as [[[ring Hring] Hopen] Hrest].
    simpl. mred. rewrite Hring. mred.
    rewrite (octf_trace_open_run e j c T HT), Hopen. simpl.
    erewrite IH; [| apply traces_with_tracers | done | done].
    simpl. destruct (trace_ring c !! i);
      rewrite with_tracers_with_tracers; do 2 f_equal;
      (apply with_tracers_eq; [f_equal; set_solver | done]).
Qed.

(** Either every processor opens, or there is a first one that does not. *)
Lemma first_stop e c cpus :
  Forall (opens_ok e c) cpus ∨
  ∃ pre i post,
    cpus = pre ++ i :: post ∧ Forall (opens_ok e c) pre ∧ ¬ opens_ok e c i.
Proof.
  induction cpus as [|j rest IH]; [by left |].
  destruct (decide (opens_ok e c j)) as [Hj|Hj].
  - destruct IH as [Hall|(pre & i & post & -> & Hpre & Hi)].
    + left. by constructor.
    + right. exists (j :: pre), i, post. repeat split; [by constructor | done].
  - right. by exists [], j, rest.
Qed.

Lemma stop_result_nonzero e c i : ¬ opens_ok e c i → stop_result e c i ≠ 0.
Proof.
  unfold opens_ok, stop_result. intros Hi.
  destruct (trace_ring c !! i) as [ring|]; [| unfold EINVAL; lia].
  intros Hr. apply Hi. split; [by eexists | done].
Qed.

Lemma init_tracers_no_table e c :
  alloc_percpu_ok e = false →
  init_tracers e c
  = Some (- ENOMEM, with_tracers None [call_alloc_percpu false] c).
Proof.
  intros Ha. unfold init_tracers, alloc_percpu. mred. rewrite Ha. by mred.
Qed.

Lemma init_tracers_opens_all e c :
  alloc_percpu_ok e = true →
  Forall (opens_ok e c) (cpu_online e) →
  init_tracers e c
  = Some (0, with_tracers (Some (list_to_set (cpu_online e)))
               (call_alloc_percpu true :: open_calls (cpu_online e)) c).
Proof.
  intros Ha Hok. unfold init_tracers, alloc_percpu. mred. rewrite Ha. mred.
  change (set_traces (Some ∅) (set_calls (calls c ++ [call_alloc_percpu true]) c))
    with (with_tracers (Some ∅) [call_alloc_percpu true] c).
  erewrite open_each_all_ok; [| apply traces_with_tracers | done].
  unfold cpu_online at 1. cbn [Z.eqb negb]. rewrite with_tracers_with_tracers.
  do 2 f_equal. apply with_tracers_eq; [f_equal; set_solver | done].
Qed.

Lemma init_tracers_rolls_back e c pre i post :
  alloc_percpu_ok e = true →
  cpu_online e = pre ++ i :: post →
  Forall (opens_ok e c) pre →
  ¬ opens_ok e c i →
  init_tracers e c
  = Some (stop_result e c i,
          with_tracers None
            (call_alloc_percpu true :: open_calls pre ++ stop_calls e c i
               ++ close_calls (cpu_online e) ++ [call_free_percpu]) c).
Proof.
  intros Ha Hcpus Hpre Hi. pose proof (stop_result_nonzero e c i Hi) as Hnz.
  unfold init_tracers, alloc_percpu. mred. rewrite Ha. mred.
  change (set_traces (Some ∅) (set_calls (calls c ++ [call_alloc_percpu true]) c))
    with (with_tracers (Some ∅) [call_alloc_percpu true] c).
  rewrite Hcpus at 1.
  erewrite open_each_stops; [| apply traces_with_tracers | done | done].
  unfold stop_result, stop_calls in *.
  change (trace_ring (with_tracers (Some ∅) [call_alloc_percpu true] c))
    with (trace_ring c).
  destruct (trace_ring c !! i) as [ring|]; cbn beta iota.
  - destruct (octf_trace_open_result e i =? 0) eqn:Hr; [lia |].
    cbn [negb].
    erewrite close_each_run by apply traces_with_tracers.
    rewrite free_percpu_run, !with_tracers_with_tracers.
    do 2 apply f_equal. apply with_tracers_eq; [done | by_assoc].
  - change (- EINVAL =? 0) with false. cbn [negb].
    erewrite close_each_run by apply traces_with_tracers.
    rewrite free_percpu_run, !with_tracers_with_tracers.
    do 2 apply f_equal. apply with_tracers_eq; [done | by_assoc].
Qed.

Lemma deinit_tracers_run e c T :
  traces c = Some T →
  deinit_tracers e c
  = Some (tt, with_tracers None
                (close_calls (cpu_online e) ++ [call_free_percpu]) c).
Proof.
  intros HT. unfold deinit_tracers. mred.
  erewrite close_each_run by done.
  by rewrite free_percpu_run, with_tracers_with_tracers.
Qed.

(** ** Clients *)

Lemma register_run e c :
  register_trace_block_bio_queue e c
  = Some (register_result e,
          let c' := with_tracers (traces c)
                      [call_register_trace_block_bio_queue (register_result e)]
                      c in
          if register_result e =? 0 then set_probe true c' else c').
Proof.
  unfold register_trace_block_bio_queue. mred.
  by destruct (register_result e =? 0).
Qed.

Lemma attach_more e c :
  clients c ≠ 0 →
  iotrace_attach_client e c = Some (0, set_clients (clients c + 1) c).
Proof.
  intros Hc. unfold iotrace_attach_client. mred.
  destruct (clients c =? 0) eqn:E; [lia | done].
Qed.

Lemma attach_init_fails e c r c1 :
  clients c = 0 →
  init_tracers e c = Some (r, c1) →
  r ≠ 0 →
  iotrace_attach_client e c = Some (r, c1).
Proof.
  intros Hc Hinit Hr. unfold iotrace_attach_client. mred.
  rewrite Hc. cbn [Z.eqb negb]. rewrite Hinit.
  destruct (r =? 0) eqn:E; [lia | done].
Qed.

Lemma attach_register_fails e c :
  clients c = 0 →
  alloc_percpu_ok e = true →
  Forall (opens_ok e c) (cpu_online e) →
  register_result e ≠ 0 →
  iotrace_attach_client e c
  = Some (register_result e,
          with_tracers None
            (call_alloc_percpu true :: open_calls (cpu_online e)
               ++ [call_register_trace_block_bio_queue (register_result e)]
               ++ close_calls (cpu_online e) ++ [call_free_percpu]) c).
Proof.
  intros Hc Ha Hok Hr. unfold iotrace_attach_client. mred.
  rewrite Hc. cbn [Z.eqb negb]. rewrite init_tracers_opens_all by done.
  cbn [Z.eqb negb]. rewrite register_run. cbv zeta.
  destruct (register_result e =? 0) eqn:E; [lia |]. cbn [negb].
  rewrite traces_with_tracers, with_tracers_with_tracers.
  erewrite deinit_tracers_run by apply traces_with_tracers.
  rewrite with_tracers_with_tracers.
  do 2 apply f_equal. apply with_tracers_eq; [done | by_assoc].
Qed.

Lemma attach_first e c :
  clients c = 0 →
  alloc_percpu_ok e = true →
  Forall (opens_ok e c) (cpu_online e) →
  register_result e = 0 →
  iotrace_attach_client e c
  = Some (0,
          set_clients 1
            (set_probe true
               (with_tracers (Some (list_to_set (cpu_online e)))
                  (call_alloc_percpu true :: open_calls (cpu_online e)
                     ++ [call_register_trace_block_bio_queue 0]) c))).
Proof.
  intros Hc Ha Hok Hr. unfold iotrace_attach_client. mred.
  rewrite Hc. cbn [Z.eqb negb]. rewrite init_tracers_opens_all by done.
  cbn [Z.eqb negb]. rewrite register_run. cbv zeta.
  rewrite Hr. cbn [Z.eqb negb].
  rewrite traces_with_tracers, with_tracers_with_tracers.
  do 2 apply f_equal.
  unfold with_tracers, set_clients, set_probe, set_calls, set_traces.
  cbn [sid traces clients buffer_size trace_ring probe calls].
  rewrite Hc. f_equal.
Qed.

Lemma detach_last e c T :
  clients c = 1 →
  traces c = Some T →
  iotrace_detach_client e c
  = Some (tt,
          set_clients 0
            (set_probe false
               (with_tracers None
                  (call_unregister_trace_block_bio_queue
                     :: call_iotrace_bdev_remove_all
                     :: close_calls (cpu_online e) ++ [call_free_percpu]) c))).
Proof.
  intros Hc HT. unfold iotrace_detach_client. mred.
  cbn [clients set_clients]. rewrite Hc. change (1 - 1) with 0.
  cbn [Z.eqb negb]. unfold unregister_trace_block_bio_queue. mred.
  erewrite deinit_tracers_run by (cbn; exact HT).
  do 2 apply f_equal.
  unfold with_tracers, set_clients, set_probe, set_calls, set_traces.
  cbn [sid traces clients buffer_size trace_ring probe calls].
  f_equal. by_assoc.
Qed.

Lemma detach_other e c :
  clients c ≠ 1 →
  iotrace_detach_client e c = Some (tt, set_clients (clients c - 1) c).
Proof.
  intros Hc. unfold iotrace_detach_client. mred.
  cbn [clients set_clients].
  destruct (clients c - 1 =? 0) eqn:E; [lia | done].
Qed.

(** ** Counting registrations *)

Lemma count_calls_app f l1 l2 :
  count_calls f (l1 ++ l2) = (count_calls f l1 + count_calls f l2)%nat.
Proof.
  induction l1 as [|x l1 IH]; [done |].
  simpl. destruct (f x); simpl; lia.
Qed.

Lemma count_calls_map_none {A} f (g : A → extern_call) (l : list A) :
  (∀ a, f (g a) = false) → count_calls f (map g l) = O.
Proof.
  intros Hg. induction l as [|a l IH]; [done |].
  simpl. by rewrite Hg.
Qed.

Lemma registrations_open_calls l : registrations (open_calls l) = O.
Proof. by apply count_calls_map_none. Qed.

Lemma registrations_close_calls l : registrations (close_calls l) = O.
Proof. by apply count_calls_map_none. Qed.

Lemma unregistrations_open_calls l : unregistrations (open_calls l) = O.
Proof. by apply count_calls_map_none. Qed.

Lemma unregistrations_close_calls l : unregistrations (close_calls l) = O.
Proof. by apply count_calls_map_none. Qed.

Lemma registrations_stop_calls e c i : registrations (stop_calls e c i) = O.
Proof. unfold stop_calls. by destruct (trace_ring c !! i). Qed.

Lemma unregistrations_stop_calls e c i : unregistrations (stop_calls e c i) = O.
Proof. unfold stop_calls. by destruct (trace_ring c !! i). Qed.

Lemma registrations_with_tracers T l c :
  registrations (calls (with_tracers T l c))
  = (registrations (calls c) + registrations l)%nat.
Proof. apply count_calls_app. Qed.

Lemma unregistrations_with_tracers T l c :
  unregistrations (calls (with_tracers T l c))
  = (unregistrations (calls c) + unregistrations l)%nat.
Proof. apply count_calls_app. Qed.

Lemma registrations_cons x l :
  registrations (x :: l)
  = if is_registration x then S (registrations l) else registrations l.
Proof. reflexivity. Qed.

Lemma unregistrations_cons x l :
  unregistrations (x :: l)
  = if is_unregistration x then S (unregistrations l) else unregistrations l.
Proof. reflexivity. Qed.

Lemma registrations_app l1 l2 :
  registrations (l1 ++ l2) = (registrations l1 + registrations l2)%nat.
Proof. apply count_calls_app. Qed.

Lemma unregistrations_app l1 l2 :
  unregistrations (l1 ++ l2) = (unregistrations l1 + unregistrations l2)%nat.
Proof. apply count_calls_app. Qed.

Create Rewrite HintDb tracer_calls.
#[local] Hint Rewrite registrations_with_tracers unregistrations_with_tracers
  registrations_cons unregistrations_cons registrations_app
  unregistrations_app registrations_open_calls registrations_close_calls
  unregistrations_open_calls unregistrations_close_calls
  registrations_stop_calls unregistrations_stop_calls : tracer_calls.

Ltac count_registrations :=
  cbn [calls set_clients set_probe];
  autorewrite with tracer_calls;
  cbn [is_registration is_unregistration registrations unregistrations
       count_calls].

(** One call of the client interface keeps the context coherent, moves the
    count by what it returns, and registers or unregisters the probe
    exactly when the count leaves or reaches zero. *)
Lemma client_call_step k c :
  coherent c →
  ∃ r c',
    do_client_call k c = Some (r, c') ∧
    coherent c' ∧
    clients c' = clients c
                 + match k with
                   | attach_client _ => if r =? 0 then 1 else 0
                   | detach_client _ => -1
                   end ∧
    registrations (calls c')
    = (if (clients c =? 0) && (0 <? clients c')
       then S (registrations (calls c)) else registrations (calls c)) ∧
    unregistrations (calls c')
    = (if (0 <? clients c) && (clients c' =? 0)
       then S (unregistrations (calls c)) else unregistrations (calls c)).
Proof.
  intros [Hpos Hnonpos]. destruct k as [e|e]; cbn [do_client_call].
  - destruct (decide (clients c = 0)) as [Hc|Hc].
    + destruct (Hnonpos ltac:(lia)) as [Hprobe Htraces].
      destruct (alloc_percpu_ok e) eqn:Ha.
      * destruct (first_stop e c (cpu_online e))
          as [Hall|(pre & i & post & Hcpus & Hpre & Hi)].
        -- destruct (decide (register_result e = 0)) as [Hr|Hr].
           ++ eexists _, _. split; [by apply attach_first |].
              rewrite Hc. split; [| split; [done |]].
              { split; cbn; intros; [by eauto | lia]. }
              count_registrations. cbn. rewrite ?Hc. cbn. split; lia.
           ++ eexists _, _. split; [by apply attach_register_fails |].
              rewrite Hc. destruct (register_result e =? 0) eqn:E; [lia |].
              split; [| split; [cbn; lia |]].
              { split; cbn; intros; [lia | done]. }
              count_registrations. rewrite E. cbn. rewrite ?Hc. cbn. split; lia.
        -- pose proof (stop_result_nonzero e c i Hi) as Hnz.
           eexists _, _. split.
           { eapply attach_init_fails; [done | | done].
             by eapply init_tracers_rolls_back. }
           rewrite Hc. destruct (stop_result e c i =? 0) eqn:E; [lia |].
           split; [| split; [cbn; lia |]].
           { split; cbn; intros; [lia | done]. }
           count_registrations. cbn. rewrite ?Hc. cbn. split; lia.
      * eexists _, _. split.
        { eapply attach_init_fails; [done | | ].
          - by apply init_tracers_no_table.
          - unfold ENOMEM. lia. }
        rewrite Hc. change (- ENOMEM =? 0) with false.
        split; [| split; [cbn; lia |]].
        { split; cbn; intros; [lia | done]. }
        count_registrations. cbn. rewrite ?Hc. cbn. split; lia.
    + eexists _, _. split; [by apply attach_more |].
      change (0 =? 0) with true. cbn [clients set_clients calls probe traces].
      split; [| split; [done |]].
      { split; cbn [clients set_clients calls probe traces]; intros.
        - apply Hpos. lia.
        - apply Hnonpos. lia. }
      destruct (clients c =? 0) eqn:E1; [lia |].
      destruct (0 <? clients c) eqn:E2;
        destruct (clients c + 1 =? 0) eqn:E3; try done; lia.
  - destruct (decide (clients c = 1)) as [Hc|Hc].
    + destruct (Hpos ltac:(lia)) as [Hprobe [T HT]].
      eexists _, _. split.
      { unfold mbind, M_bind. rewrite (detach_last e c T Hc HT).
        reflexivity. }
      rewrite Hc. split; [| split; [done |]].
      { split; cbn; intros; [lia | done]. }
      count_registrations. cbn. split; lia.
    + eexists _, _. split.
      { unfold mbind, M_bind. rewrite (detach_other e c Hc).
        reflexivity. }
      cbn [clients set_clients calls probe traces].
      split; [| split; [lia |]].
      { split; cbn [clients set_clients calls probe traces]; intros.
        - apply Hpos. lia.
        - apply Hnonpos. lia. }
      destruct (clients c =? 0) eqn:E1;
        destruct (0 <? clients c - 1) eqn:E2;
        destruct (0 <? clients c) eqn:E3;
        destruct (clients c - 1 =? 0) eqn:E4; try done; lia.
Qed.

(** ** Runs of the client interface *)

Lemma run_clients_coherent ks c :
  coherent c →
  ∃ tr,
    run_clients ks c = Some tr ∧
    Forall (λ rc, coherent rc.2) tr ∧
    registrations (calls (final_context c tr))
    = (registrations (calls c) + rises (clients c) (counts tr))%nat ∧
    unregistrations (calls (final_context c tr))
    = (unregistrations (calls c) + falls (clients c) (counts tr))%nat.
Proof.
  revert c. induction ks as [|k ks IH]; intros c Hc.
  - exists []. cbn. repeat split; [by constructor | lia | lia].
  - destruct (client_call_step k c Hc) as (r & c' & Hk & Hc' & _ & Hreg & Hunreg).
    destruct (IH c' Hc') as (tr & Hrun & Hall & Hregs & Hunregs).
    exists ((r, c') :: tr). cbn [run_clients]. rewrite Hk, Hrun.
    split; [done |]. split; [by constructor |].
    cbn [final_context counts map rises falls snd].
    fold (counts tr). rewrite Hregs, Hunregs, Hreg, Hunreg.
    split.
    + destruct ((clients c =? 0) && (0 <? clients c')); lia.
    + destruct ((0 <? clients c) && (clients c' =? 0)); lia.
Qed.

Lemma run_clients_credit ks c credit tr :
  coherent c →
  clients c = Z.of_nat credit →
  run_clients ks c = Some tr →
  detach_within_attach credit ks (tr.*1) = true →
  Forall (λ rc, 0 ≤ clients rc.2) tr.
Proof.
  revert c credit tr. induction ks as [|k ks IH]; intros c credit tr Hc Hn Hrun Hpre.
  - injection Hrun as <-. constructor.
  - destruct (client_call_step k c Hc) as (r & c' & Hk & Hc' & Hcount & _).
    cbn [run_clients] in Hrun. rewrite Hk in Hrun.
    destruct (run_clients ks c') as [tr'|] eqn:Hrun'; [| done].
    injection Hrun as <-. cbn [fmap list_fmap fst] in Hpre.
    destruct k as [e|e]; cbn [detach_within_attach] in Hpre.
    + constructor.
      * cbn. destruct (r =? 0); lia.
      * eapply IH; [done | | done | exact Hpre].
        destruct (r =? 0); lia.
    + destruct credit as [|credit]; [done |].
      constructor.
      * cbn. lia.
      * eapply IH; [done | | done | exact Hpre]. lia.
Qed.

(** C1. From the idle state every sequence of attach and detach calls runs
    to its end; when no prefix of it holds more detaches than attaches
    that succeeded, then after every call the count is not negative, the
    probe is registered exactly when the count is positive and the handle
    table is allocated exactly when the count is positive; the
    registrations that took effect are as many as the steps of the count
    from zero to a positive value, and the unregistrations as many as its
    steps from a positive value to zero. *)
Theorem attach_detach_lifecycle ks c :
  idle c →
  (∃ tr, run_clients ks c = Some tr) ∧
  ∀ tr,
    run_clients ks c = Some tr →
    detach_within_attach 0 ks (tr.*1) = true →
    Forall (λ rc, lifecycle_invariant rc.2) tr ∧
    registrations (calls (final_context c tr))
    = (registrations (calls c) + rises (clients c) (counts tr))%nat ∧
    unregistrations (calls (final_context c tr))
    = (unregistrations (calls c) + falls (clients c) (counts tr))%nat.
Proof.
  intros (Hclients & Hprobe & Htraces).
  assert (coherent c) as Hc by (split; intros; [lia | done]).
  destruct (run_clients_coherent ks c Hc) as (tr & Hrun & Hall & Hregs & Hunregs).
  split; [by exists tr |].
  intros tr' Hrun' Hpre. rewrite Hrun in Hrun'. injection Hrun' as <-.
  split; [| done].
  pose proof (run_clients_credit ks c O tr Hc Hclients Hrun Hpre) as Hnonneg.
  rewrite Forall_forall in *. intros rc Hrc.
  destruct (Hall rc Hrc) as [Hpos Hnonpos]. specialize (Hnonneg rc Hrc).
  unfold lifecycle_invariant. split; [done |].
  destruct (decide (0 < clients rc.2)) as [Hlt|Hle].
  - destruct (Hpos Hlt). by split.
  - destruct (Hnonpos ltac:(lia)) as [Hp Ht]. rewrite Hp, Ht.
    split; split; try done; lia.
Qed.

Lemma attach_detach_lifecycle_witness :
  idle example_context ∧
  ∃ tr,
    run_clients example_calls example_context = Some tr ∧
    tr.*1 = [0; 0; 0; 0; -16; 0] ∧
    counts tr = [1; 2; 1; 0; 0; 1] ∧
    Forall (λ rc, lifecycle_invariant rc.2) tr ∧
    registrations (calls (final_context example_context tr)) = 2%nat ∧
    unregistrations (calls (final_context example_context tr)) = 1%nat.
Proof.
  assert (idle example_context) as Hidle by done.
  split; [done |].
  destruct (attach_detach_lifecycle example_calls example_context Hidle)
    as [[tr Hrun] Hinv].
  exists tr. split; [done |].
  assert (tr.*1 = [0; 0; 0; 0; -16; 0] ∧ counts tr = [1; 2; 1; 0; 0; 1])
    as [Hresults Hcounts].
  { vm_compute in Hrun. injection Hrun as <-. split; reflexivity. }
  destruct (Hinv tr Hrun) as (Hall & Hregs & Hunregs).
  { rewrite Hresults. reflexivity. }
  rewrite Hregs, Hunregs, Hcounts. repeat split; done.
Defined.

(** ** Failures of the first attach *)

(** [init_tracers] returns zero only when the table was allocated and
    every online processor opened. *)
Lemma init_tracers_zero e c c1 :
  init_tracers e c = Some (0, c1) →
  alloc_percpu_ok e = true ∧
  Forall (opens_ok e c) (cpu_online e) ∧
  c1 = with_tracers (Some (list_to_set (cpu_online e)))
         (call_alloc_percpu true :: open_calls (cpu_online e)) c.
Proof.
  intros Hinit. destruct (alloc_percpu_ok e) eqn:Ha.
  - destruct (first_stop e c (cpu_online e))
      as [Hall|(pre & i & post & Hcpus & Hpre & Hi)].
    + rewrite init_tracers_opens_all in Hinit by done.
      injection Hinit as <-. done.
    + pose proof (stop_result_nonzero e c i Hi) as Hnz.
      rewrite (init_tracers_rolls_back e c pre i post) in Hinit by done.
      injection Hinit as Hr _. lia.
  - rewrite init_tracers_no_table in Hinit by done. done.
Qed.

(** C2. When the first attach has opened the tracers and the registration
    of the probe is refused, the call closes every handle it opened,
    releases the table and returns the error of the registration, the
    count being still zero; and no call of attach that returns an error
    changes the count. *)
Theorem attach_failure_keeps_count e c :
  (∀ c1,
     clients c = 0 →
     init_tracers e c = Some (0, c1) →
     register_result e ≠ 0 →
     ∃ T c',
       traces c1 = Some T ∧ T ⊆ list_to_set (cpu_online e) ∧
       iotrace_attach_client e c = Some (register_result e, c') ∧
       c' = with_tracers None
              (call_register_trace_block_bio_queue (register_result e)
                 :: close_calls (cpu_online e) ++ [call_free_percpu]) c1 ∧
       traces c' = None ∧ probe c' = probe c ∧ clients c' = 0) ∧
  (∀ r c',
     iotrace_attach_client e c = Some (r, c') →
     r ≠ 0 →
     clients c' = clients c).
Proof.
  split.
  - intros c1 Hc Hinit Hr.
    destruct (init_tracers_zero e c c1 Hinit) as (Ha & Hall & ->).
    eexists _, _. split; [reflexivity |]. split; [done |].
    rewrite attach_register_fails by done.
    split; [| by split].
    rewrite with_tracers_with_tracers.
    do 2 apply f_equal. apply with_tracers_eq; [done | by_assoc].
  - intros r c' Hattach Hr.
    destruct (decide (clients c = 0)) as [Hc|Hc].
    + destruct (alloc_percpu_ok e) eqn:Ha.
      * destruct (first_stop e c (cpu_online e))
          as [Hall|(pre & i & post & Hcpus & Hpre & Hi)].
        -- destruct (decide (register_result e = 0)) as [Hreg|Hreg].
           ++ rewrite attach_first in Hattach by done.
              injection Hattach as <- _. done.
           ++ rewrite attach_register_fails in Hattach by done.
              by injection Hattach as _ <-.
        -- pose proof (stop_result_nonzero e c i Hi) as Hnz.
           erewrite attach_init_fails in Hattach;
             [| done | by eapply init_tracers_rolls_back | done].
           by injection Hattach as _ <-.
      * erewrite attach_init_fails in Hattach;
          [| done | by apply init_tracers_no_table | unfold ENOMEM; lia].
        by injection Hattach as _ <-.
    + rewrite attach_more in Hattach by done.
      injection Hattach as <- _. done.
Qed.

Lemma attach_failure_keeps_count_witness :
  ∃ c',
    iotrace_attach_client example_env_unregistered example_context
    = Some (- 16, c') ∧
    clients c' = 0 ∧ traces c' = None ∧ probe c' = false ∧
    calls c'
    = [call_alloc_percpu true;
       call_octf_trace_open 0 0; call_octf_trace_open 1 0;
       call_octf_trace_open 2 0; call_octf_trace_open 3 0;
       call_register_trace_block_bio_queue (- 16);
       call_octf_trace_close 0; call_octf_trace_close 1;
       call_octf_trace_close 2; call_octf_trace_close 3;
       call_free_percpu].
Proof.
  destruct (init_tracers example_env_unregistered example_context)
    as [[r c1]|] eqn:Hinit; [| by vm_compute in Hinit].
  assert (r = 0) as -> by (vm_compute in Hinit; congruence).
  destruct (attach_failure_keeps_count example_env_unregistered example_context)
    as [Hrollback Hcount].
  destruct (Hrollback c1) as (T & c' & HT & Hsub & Hattach & Hc' & Htr & Hp & Hcl);
    [reflexivity | exact Hinit | by vm_compute |].
  exists c'. split; [exact Hattach |].
  assert (clients c' = clients example_context) as Hkept
    by (apply (Hcount (- 16) c'); [exact Hattach | by vm_compute]).
  repeat split; [done | done | done |].
  rewrite Hc'. vm_compute in Hinit. injection Hinit as <-. reflexivity.
Defined.

(** C3. On the first attach, a missing ring of an online processor makes
    the activation fail, with [-EINVAL] when the table is allocated and no
    open fails; the loop stops at the first online processor
    whose ring is missing or whose open fails, with [-EINVAL] in the first
    case and the error of the open in the second; the call then closes the
    handles of all online processors, among them every one it opened,
    releases the table and returns that error. After a failed attach the
    context is idle again, and an attach for which every online processor
    is backed and opens, and the registration is accepted, succeeds from
    it, whatever rings were allocated in between. *)
Theorem activation_rolls_back e c :
  idle c →
  ((∃ i, i ∈ cpu_online e ∧ trace_ring c !! i = None) →
   ∃ r c', iotrace_attach_client e c = Some (r, c') ∧ r ≠ 0) ∧
  ((∃ i, i ∈ cpu_online e ∧ trace_ring c !! i = None) →
   alloc_percpu_ok e = true →
   (∀ i, i ∈ cpu_online e → is_Some (trace_ring c !! i) →
         octf_trace_open_result e i = 0) →
   ∃ c', iotrace_attach_client e c = Some (- EINVAL, c') ∧ idle c') ∧
  (∀ pre i post,
     alloc_percpu_ok e = true →
     cpu_online e = pre ++ i :: post →
     Forall (opens_ok e c) pre →
     trace_ring c !! i = None →
     iotrace_attach_client e c
     = Some (- EINVAL,
             with_tracers None
               (call_alloc_percpu true :: open_calls pre
                  ++ close_calls (cpu_online e) ++ [call_free_percpu]) c)) ∧
  (∀ pre i post,
     alloc_percpu_ok e = true →
     cpu_online e = pre ++ i :: post →
     Forall (opens_ok e c) pre →
     is_Some (trace_ring c !! i) →
     octf_trace_open_result e i ≠ 0 →
     iotrace_attach_client e c
     = Some (octf_trace_open_result e i,
             with_tracers None
               (call_alloc_percpu true :: open_calls pre
                  ++ [call_octf_trace_open i (octf_trace_open_result e i)]
                  ++ close_calls (cpu_online e) ++ [call_free_percpu]) c)) ∧
  (∀ r c',
     iotrace_attach_client e c = Some (r, c') →
     r ≠ 0 →
     idle c' ∧
     ∀ rings e2,
       alloc_percpu_ok e2 = true →
       Forall (opens_ok e2 (set_trace_ring rings c')) (cpu_online e2) →
       register_result e2 = 0 →
       ∃ c'',
         iotrace_attach_client e2 (set_trace_ring rings c') = Some (0, c'') ∧
         clients c'' = 1 ∧ probe c'' = true ∧
         traces c'' = Some (list_to_set (cpu_online e2))).
Proof.
  intros (Hc & Hprobe & Htraces).
  assert (∀ pre i post,
    alloc_percpu_ok e = true →
    cpu_online e = pre ++ i :: post →
    Forall (opens_ok e c) pre →
    ¬ opens_ok e c i →
    iotrace_attach_client e c
    = Some (stop_result e c i,
            with_tracers None
              (call_alloc_percpu true :: open_calls pre ++ stop_calls e c i
                 ++ close_calls (cpu_online e) ++ [call_free_percpu]) c))
    as Hstop.
  { intros pre i post Ha Hcpus Hpre Hi.
    eapply attach_init_fails; [done | | by apply stop_result_nonzero].
    by eapply init_tracers_rolls_back. }
  split; [| split; [| split; [| split]]].
  - intros (i & Hin & Hring).
    destruct (alloc_percpu_ok e) eqn:Ha.
    + destruct (first_stop e c (cpu_online e))
        as [Hall|(pre & j & post & Hcpus & Hpre & Hj)].
      * rewrite Forall_forall in Hall. destruct (Hall i Hin) as [[ring Hsome] _].
        congruence.
      * eexists _, _. split; [by eapply Hstop |]. by apply stop_result_nonzero.
    + eexists _, _. split.
      * eapply attach_init_fails; [done | by apply init_tracers_no_table |].
        unfold ENOMEM. lia.
      * unfold ENOMEM. lia.
  - intros (i & Hin & Hring) Ha Hopens.
    destruct (first_stop e c (cpu_online e))
      as [Hall|(pre & j & post & Hcpus & Hpre & Hj)].
    + rewrite Forall_forall in Hall. destruct (Hall i Hin) as [[ring Hsome] _].
      congruence.
    + assert (stop_result e c j = - EINVAL) as Hresult.
      { unfold stop_result.
        destruct (trace_ring c !! j) as [ring|] eqn:Hj'; [| done].
        exfalso. apply Hj. split; [by eexists |].
        apply Hopens; [| by eexists]. rewrite Hcpus. set_solver. }
      eexists. split.
      * erewrite Hstop by done. rewrite Hresult. reflexivity.
      * done.
  - intros pre i post Ha Hcpus Hpre Hring.
    erewrite Hstop; [| done | done | done |].
    + unfold stop_result, stop_calls. by rewrite Hring.
    + intros [[ring Hsome] _]. congruence.
  - intros pre i post Ha Hcpus Hpre [ring Hring] Hr.
    erewrite Hstop; [| done | done | done |].
    + unfold stop_result, stop_calls. by rewrite Hring.
    + by intros [_ Hzero].
  - intros r c' Hattach Hr.
    assert (idle c') as Hidle.
    { destruct (alloc_percpu_ok e) eqn:Ha.
      - destruct (first_stop e c (cpu_online e))
          as [Hall|(pre & j & post & Hcpus & Hpre & Hj)].
        + destruct (decide (register_result e = 0)) as [Hreg|Hreg].
          * rewrite attach_first in Hattach by done.
            injection Hattach as <- _. done.
          * rewrite attach_register_fails in Hattach by done.
            by injection Hattach as _ <-.
        + erewrite Hstop in Hattach by done. by injection Hattach as _ <-.
      - erewrite attach_init_fails in Hattach;
          [| done | by apply init_tracers_no_table | unfold ENOMEM; lia].
        by injection Hattach as _ <-. }
    split; [done |].
    intros rings e2 Ha2 Hall2 Hreg2. destruct Hidle as (Hc' & Hp' & Ht').
    rewrite attach_first by done.
    eexists. split; [reflexivity | done].
Qed.

Lemma activation_rolls_back_witness :
  idle example_context_unbacked ∧
  (∃ c',
     iotrace_attach_client example_env example_context_unbacked
     = Some (- 22, c') ∧
     idle c' ∧
     calls c'
     = [call_alloc_percpu true;
        call_octf_trace_open 0 0; call_octf_trace_open 1 0;
        call_octf_trace_close 0; call_octf_trace_close 1;
        call_octf_trace_close 2; call_octf_trace_close 3;
        call_free_percpu] ∧
     ∃ c'',
       iotrace_attach_client example_env
         (set_trace_ring (trace_ring example_context) c') = Some (0, c'') ∧
       clients c'' = 1 ∧ probe c'' = true) ∧
  (∃ c',
     iotrace_attach_client example_env_open_fails example_context
     = Some (- 12, c') ∧
     idle c' ∧
     calls c'
     = [call_alloc_percpu true;
        call_octf_trace_open 0 0; call_octf_trace_open 1 (- 12);
        call_octf_trace_close 0; call_octf_trace_close 1;
        call_octf_trace_close 2; call_octf_trace_close 3;
        call_free_percpu]).
Proof.
  assert (idle example_context_unbacked) as Hidle by done.
  assert (idle example_context) as Hidle' by done.
  split; [done |].
  split.
  - destruct (activation_rolls_back example_env example_context_unbacked Hidle)
      as (_ & _ & Hmissing & _ & Hafter).
    specialize (Hmissing [0; 1]%nat 2%nat [3]%nat).
    eexists. split; [apply Hmissing |].
    + reflexivity.
    + reflexivity.
    + by_decide.
    + by vm_compute.
    + edestruct Hafter as [Hidle2 Hnext];
        [apply Hmissing; [reflexivity | reflexivity
                         | by_decide | by vm_compute]
        | by vm_compute |].
      split; [done |]. split; [reflexivity |].
      edestruct (Hnext (trace_ring example_context) example_env)
        as (c'' & Hattach & Hcl & Hp & _);
        [reflexivity | by_decide | reflexivity |].
      by exists c''.
  - destruct (activation_rolls_back example_env_open_fails example_context Hidle')
      as (_ & _ & _ & Hopen & Hafter).
    specialize (Hopen [0]%nat 1%nat [2; 3]%nat).
    eexists. split; [apply Hopen |].
    + reflexivity.
    + reflexivity.
    + by_decide.
    + by_decide.
    + by vm_compute.
    + edestruct Hafter as [Hidle2 _];
        [apply Hopen; [reflexivity | reflexivity
                      | by_decide | by_decide
                      | by vm_compute]
        | by vm_compute |].
      split; [done | reflexivity].
Defined.

(** ** Event emitters *)

Lemma atomic64_inc_return_run c :
  atomic64_inc_return c
  = Some (u64 (sid c + 1), set_sid (u64 (sid c + 1)) c).
Proof. reflexivity. Qed.

Lemma per_cpu_trace_run cpu c T :
  traces c = Some T →
  per_cpu_trace cpu c = Some (bool_decide (cpu ∈ T), c).
Proof. intros HT. unfold per_cpu_trace. mred. by rewrite HT. Qed.

Lemma octf_trace_push_run e T cpu r size c :
  octf_trace_push e (bool_decide (cpu ∈ T)) cpu r size c
  = Some (push_outcome e T cpu,
          after_push cpu r size (push_outcome e T cpu) c).
Proof.
  unfold octf_trace_push, push_outcome, after_push. mred.
  by destruct (_ =? 0).
Qed.

Lemma iotrace_trace_bio_run p e cpu dev_id b c T :
  traces c = Some T →
  iotrace_trace_bio p e cpu dev_id b c
  = Some (tt,
          let ev := bio_event p e (u64 (sid c + 1)) dev_id b in
          let c1 := after_push cpu (io_record ev) (sizeof_iotrace_event p)
                      (push_outcome e T cpu) (set_sid (u64 (sid c + 1)) c) in
          set_calls (calls c1 ++ [call_wake_up cpu]) c1).
Proof.
  intros HT. unfold iotrace_trace_bio, iotrace_notify_of_new_events.
  unfold mbind at 1, M_bind at 1. rewrite atomic64_inc_return_run.
  unfold mbind at 1, M_bind at 1.
  rewrite (per_cpu_trace_run cpu _ T) by done.
  unfold mbind at 1, M_bind at 1. rewrite octf_trace_push_run.
  reflexivity.
Qed.

Lemma strnlen_min s n : strnlen s n = Nat.min (String.length s) n.
Proof.
  revert s. induction n as [|n IH]; intros [|a s]; simpl; try done.
  by rewrite IH.
Qed.

Lemma iotrace_trace_desc_rejects p e cpu dev_id dev_name dev_size c T :
  traces c = Some T →
  (sizeof_device_name p ≤ String.length dev_name)%nat →
  iotrace_trace_desc p e cpu dev_id dev_name dev_size c
  = Some (- ENOSPC, set_sid (u64 (sid c + 1)) c).
Proof.
  intros HT Hlen. unfold iotrace_trace_desc.
  unfold mbind at 1, M_bind at 1. rewrite (per_cpu_trace_run cpu _ T) by done.
  unfold mbind at 1, M_bind at 1. rewrite atomic64_inc_return_run.
  rewrite strnlen_min.
  destruct (Nat.leb_spec (sizeof_device_name p)
              (String.length dev_name `min` sizeof_device_name p)); [done | lia].
Qed.

Lemma iotrace_trace_desc_accepts p e cpu dev_id dev_name dev_size c T :
  traces c = Some T →
  (String.length dev_name < sizeof_device_name p)%nat →
  iotrace_trace_desc p e cpu dev_id dev_name dev_size c
  = Some (push_outcome e T cpu,
          let desc := desc_event p e (u64 (sid c + 1)) dev_id dev_name
                        dev_size in
          let c1 := after_push cpu (device_desc_record desc)
                      (sizeof_iotrace_event_device_desc p)
                      (push_outcome e T cpu) (set_sid (u64 (sid c + 1)) c) in
          set_calls (calls c1 ++ [call_wake_up cpu]) c1).
Proof.
  intros HT Hlen. unfold iotrace_trace_desc, iotrace_notify_of_new_events.
  unfold mbind at 1, M_bind at 1. rewrite (per_cpu_trace_run cpu _ T) by done.
  unfold mbind at 1, M_bind at 1. rewrite atomic64_inc_return_run.
  rewrite strnlen_min.
  destruct (Nat.leb_spec (sizeof_device_name p)
              (String.length dev_name `min` sizeof_device_name p)); [lia |].
  unfold mbind at 1, M_bind at 1. rewrite octf_trace_push_run.
  reflexivity.
Qed.

(** C7. With the handle table allocated, [iotrace_trace_bio] returns
    nothing but the new context. The event it builds has the operation
    discard when the discard flag of the bio is set, else write when the
    data direction is write, else read; its flags are the flush bit when
    the flush flag is set together with the force-unit-access bit when that
    flag is set, and depend on nothing else of the bio; its address is the
    start sector and its length the byte size shifted right by 9. The
    call hands this one record, with the size of the event structure, to
    the cell of the given processor, the ring receiving it when the push
    is accepted, and then wakes the waiters of that processor, whatever the
    push returned. *)
Theorem trace_bio_event p e cpu dev_id b c T :
  traces c = Some T →
  let ev := bio_event p e (u64 (sid c + 1)) dev_id b in
  let result := push_outcome e T cpu in
  (∃ c',
     iotrace_trace_bio p e cpu dev_id b c = Some (tt, c') ∧
     calls c'
     = calls c
       ++ [call_octf_trace_push cpu (io_record ev) (sizeof_iotrace_event p)
             result;
           call_wake_up cpu] ∧
     trace_ring c'
     = (if result =? 0
        then alter (λ l, l ++ [io_record ev]) cpu (trace_ring c)
        else trace_ring c) ∧
     traces c' = traces c ∧ clients c' = clients c ∧ probe c' = probe c ∧
     buffer_size c' = buffer_size c) ∧
  ev_operation ev
  = (if decide (Z.land (bi_rw b) (REQ_DISCARD p) ≠ 0)
     then iotrace_event_operation_discard
     else if decide (Z.land (bi_rw b) 1 = 1)
          then iotrace_event_operation_wr
          else iotrace_event_operation_rd) ∧
  ev_flags ev
  = Z.lor (if decide (Z.land (bi_rw b) (REQ_FLUSH p) ≠ 0)
           then iotrace_event_flag_flush p else 0)
          (if decide (Z.land (bi_rw b) (REQ_FUA p) ≠ 0)
           then iotrace_event_flag_fua p else 0) ∧
  (∀ b' sid' dev_id' e',
     (Z.land (bi_rw b') (REQ_FLUSH p) =? 0)
     = (Z.land (bi_rw b) (REQ_FLUSH p) =? 0) →
     (Z.land (bi_rw b') (REQ_FUA p) =? 0)
     = (Z.land (bi_rw b) (REQ_FUA p) =? 0) →
     ev_flags (bio_event p e' sid' dev_id' b') = ev_flags ev) ∧
  ev_lba ev = bi_sector b ∧
  ev_len ev = Z.shiftr (bi_size b) 9 ∧
  ev_len ev = bi_size b / 512 ∧
  ev_dev_id ev = dev_id ∧
  hdr_type (ev_hdr ev) = iotrace_event_type_io ∧
  hdr_sid (ev_hdr ev) = u64 (sid c + 1) ∧
  hdr_size (ev_hdr ev) = sizeof_iotrace_event p.
Proof.
  intros HT ev result. split; [| repeat split].
  - rewrite (iotrace_trace_bio_run p e cpu dev_id b c T HT). cbv zeta.
    eexists. split; [reflexivity |].
    cbn [calls trace_ring traces clients probe buffer_size set_calls
         after_push set_trace_ring set_sid].
    repeat split. by rewrite <- app_assoc.
  - unfold ev, bio_event, c_true, IOTRACE_BIO_IS_DISCARD, IOTRACE_BIO_IS_WRITE,
      IOTRACE_BIO_OP_FLAGS, bio_data_dir, WRITE. cbn [ev_operation].
    destruct (Z.eqb_spec (Z.land (bi_rw b) (REQ_DISCARD p)) 0);
      destruct (Z.eqb_spec (Z.land (bi_rw b) 1) 1);
      repeat case_decide; done.
  - unfold ev, bio_event, c_true, IOTRACE_BIO_IS_FLUSH, IOTRACE_BIO_IS_FUA,
      IOTRACE_BIO_OP_FLAGS. cbn [ev_flags].
    destruct (Z.eqb_spec (Z.land (bi_rw b) (REQ_FLUSH p)) 0);
      destruct (Z.eqb_spec (Z.land (bi_rw b) (REQ_FUA p)) 0);
      repeat case_decide; try done; cbn [negb];
      rewrite ?Z.lor_0_l, ?Z.lor_0_r; done.
  - intros b' sid' dev_id' e' Hflush Hfua.
    unfold ev, bio_event, c_true, IOTRACE_BIO_IS_FLUSH, IOTRACE_BIO_IS_FUA,
      IOTRACE_BIO_OP_FLAGS. cbn [ev_flags]. by rewrite Hflush, Hfua.
  - unfold ev, bio_event, IOTRACE_BIO_BISIZE. cbn [ev_len].
    by rewrite Z.shiftr_div_pow2.
Qed.

Lemma trace_bio_event_witness :
  ∃ c',
    iotrace_trace_bio example_platform example_env 2%nat 7
      example_bio_write_flush example_context_active = Some (tt, c') ∧
    trace_ring c' !! 2%nat
    = Some [io_record
              {| ev_hdr := {| hdr_type := iotrace_event_type_io;
                              hdr_sid := 42; hdr_timestamp := 1000;
                              hdr_size := 64 |};
                 ev_operation := iotrace_event_operation_wr;
                 ev_flags := 1; ev_lba := 1024; ev_len := 8;
                 ev_io_class := 0; ev_dev_id := 7 |}] ∧
    ev_operation (bio_event example_platform example_env 42 7 example_bio_read)
    = iotrace_event_operation_rd ∧
    ev_operation
      (bio_event example_platform example_env 42 7 example_bio_discard_fua)
    = iotrace_event_operation_discard ∧
    ev_flags
      (bio_event example_platform example_env 42 7 example_bio_discard_fua)
    = 2.
Proof.
  destruct (trace_bio_event example_platform example_env 2%nat 7
              example_bio_write_flush example_context_active
              (list_to_set [0; 1; 2; 3]%nat) eq_refl)
    as ((c' & Hrun & Hcalls & Hring & _) & _).
  exists c'. split; [exact Hrun |].
  split; [rewrite Hring; by vm_compute |].
  repeat split.
Defined.

(** C5. With the handle table allocated, [iotrace_trace_desc] accepts a
    name whose length is the capacity of [device_name] minus one: it hands
    the descriptor to the cell of the processor, wakes the waiters and
    returns what the push returned, so that it succeeds, the ring holding
    the descriptor, when the handle is open and the push is accepted. A
    name whose length is the capacity or more makes it return [-ENOSPC]
    with no push and no wake-up: the rings, the handles and the external
    calls are those of before. *)
Theorem trace_desc_name_bound p e cpu dev_id dev_name dev_size c T :
  traces c = Some T →
  (S (String.length dev_name) = sizeof_device_name p →
   let desc := desc_event p e (u64 (sid c + 1)) dev_id dev_name dev_size in
   ∃ c',
     iotrace_trace_desc p e cpu dev_id dev_name dev_size c
     = Some (push_outcome e T cpu, c') ∧
     calls c'
     = calls c
       ++ [call_octf_trace_push cpu (device_desc_record desc)
             (sizeof_iotrace_event_device_desc p) (push_outcome e T cpu);
           call_wake_up cpu] ∧
     (cpu ∈ T →
      octf_trace_push_result e = 0 →
      push_outcome e T cpu = 0 ∧
      trace_ring c'
      = alter (λ l, l ++ [device_desc_record desc]) cpu (trace_ring c))) ∧
  ((sizeof_device_name p ≤ String.length dev_name)%nat →
   ∃ c',
     iotrace_trace_desc p e cpu dev_id dev_name dev_size c
     = Some (- ENOSPC, c') ∧
     trace_ring c' = trace_ring c ∧
     calls c' = calls c ∧
     traces c' = traces c ∧
     c' = set_sid (sid c') c).
Proof.
  intros HT. split.
  - intros Hlen desc.
    rewrite (iotrace_trace_desc_accepts p e cpu dev_id dev_name dev_size c T)
      by (done || lia).
    cbv zeta. eexists. split; [reflexivity |].
    cbn [calls trace_ring set_calls after_push set_trace_ring set_sid].
    split; [by rewrite <- app_assoc |].
    intros Hin Hpush. unfold push_outcome.
    rewrite bool_decide_eq_true_2 by done. rewrite Hpush. done.
  - intros Hlen.
    rewrite (iotrace_trace_desc_rejects p e cpu dev_id dev_name dev_size c T)
      by done.
    eexists. split; [reflexivity |]. done.
Qed.

Lemma trace_desc_name_bound_witness :
  (∃ c',
     iotrace_trace_desc example_platform example_env 1%nat 7 "nvme0n1" 4096
       example_context_active = Some (0, c') ∧
     trace_ring c' !! 1%nat
     = Some [device_desc_record
               {| desc_hdr := {| hdr_type := iotrace_event_type_device_desc;
                                 hdr_sid := 42; hdr_timestamp := 1000;
                                 hdr_size := 96 |};
                  desc_id := 7; desc_device_size := 4096;
                  desc_device_name := "nvme0n1" |}]) ∧
  (∃ c',
     iotrace_trace_desc example_platform example_env 1%nat 7 "nvme0n1p" 4096
       example_context_active = Some (- 28, c') ∧
     trace_ring c' = trace_ring example_context_active ∧
     calls c' = []).
Proof.
  split.
  - destruct (trace_desc_name_bound example_platform example_env 1%nat 7
                "nvme0n1" 4096 example_context_active
                (list_to_set [0; 1; 2; 3]%nat) eq_refl) as [Haccept _].
    destruct (Haccept eq_refl) as (c' & Hrun & _ & Hpush).
    destruct Hpush as [Hzero Hring]; [by_decide | reflexivity |].
    exists c'. rewrite Hzero in Hrun. split; [exact Hrun |].
    rewrite Hring. by vm_compute.
  - destruct (trace_desc_name_bound example_platform example_env 1%nat 7
                "nvme0n1p" 4096 example_context_active
                (list_to_set [0; 1; 2; 3]%nat) eq_refl) as [_ Hreject].
    destruct Hreject as (c' & Hrun & Hring & Hcalls & _);
      [vm_compute; lia |].
    exists c'. by split.
Defined.

(** C6. With the handle table allocated, every call of
    [iotrace_trace_desc] leaves the sequence counter one further (modulo
    [2^64]), whatever it returns; a call that the length of the name makes
    return [-ENOSPC] changes the counter and nothing else. *)
Theorem trace_desc_draws_id p e cpu dev_id dev_name dev_size c T :
  traces c = Some T →
  ∃ r c',
    iotrace_trace_desc p e cpu dev_id dev_name dev_size c = Some (r, c') ∧
    sid c' = u64 (sid c + 1) ∧
    (0 ≤ sid c < 2 ^ 64 - 1 → sid c' = sid c + 1) ∧
    ((sizeof_device_name p ≤ String.length dev_name)%nat →
     r = - ENOSPC ∧ c' = set_sid (u64 (sid c + 1)) c).
Proof.
  intros HT.
  assert (0 ≤ sid c < 2 ^ 64 - 1 → u64 (sid c + 1) = sid c + 1) as Hnowrap.
  { intros Hrange. unfold u64. apply Z.mod_small. lia. }
  destruct (decide (sizeof_device_name p ≤ String.length dev_name)%nat)
    as [Hlong|Hshort].
  - rewrite (iotrace_trace_desc_rejects p e cpu dev_id dev_name dev_size c T)
      by done.
    eexists _, _. split; [reflexivity |].
    cbn [sid set_sid]. by repeat split.
  - rewrite (iotrace_trace_desc_accepts p e cpu dev_id dev_name dev_size c T)
      by (done || lia).
    eexists _, _. split; [reflexivity |]. cbv zeta.
    cbn [sid set_sid set_calls after_push set_trace_ring].
    split; [done |]. split; [done |]. intros Hlong. lia.
Qed.

Lemma trace_desc_draws_id_witness :
  ∃ c',
    iotrace_trace_desc example_platform example_env 1%nat 7
      "a_name_that_is_too_long" 4096 example_context_active
    = Some (- 28, c') ∧
    sid c' = 42 ∧
    c' = set_sid 42 example_context_active.
Proof.
  destruct (trace_desc_draws_id example_platform example_env 1%nat 7
              "a_name_that_is_too_long" 4096 example_context_active
              (list_to_set [0; 1; 2; 3]%nat) eq_refl)
    as (r & c' & Hrun & Hsid & Hnext & Hreject).
  destruct Hreject as [-> Hc']; [vm_compute; lia |].
  exists c'. split; [exact Hrun |].
  split; [apply Hnext; by vm_compute | exact Hc'].
Defined.

(** ** Sequence ids *)

Lemma pushed_sids_app l1 l2 :
  pushed_sids (l1 ++ l2) = pushed_sids l1 ++ pushed_sids l2.
Proof.
  induction l1 as [|x l1 IH]; [done |].
  destruct x; simpl; by rewrite ?IH.
Qed.

(** One emit call draws the next id; the record it hands to the trace
    library, if it is not rejected, carries that id. *)
Lemma emit_call_step p k c T :
  traces c = Some T →
  ∃ r c' new,
    do_emit_call p k c = Some (r, c') ∧
    sid c' = u64 (sid c + 1) ∧
    traces c' = Some T ∧
    calls c' = calls c ++ new ∧
    pushed_sids new = if rejected p k then [] else [sid c'].
Proof.
  intros HT. destruct k as [e cpu dev_id b|e cpu dev_id dev_name dev_size];
    cbn [do_emit_call rejected].
  - unfold mbind, M_bind.
    rewrite (iotrace_trace_bio_run p e cpu dev_id b c T HT). cbv zeta.
    eexists _, _, _. split; [reflexivity |].
    cbn [sid traces calls set_calls after_push set_trace_ring set_sid].
    repeat split; [done | by rewrite <- app_assoc | done].
  - destruct (Nat.leb_spec (sizeof_device_name p) (String.length dev_name))
      as [Hlong|Hshort].
    + rewrite (iotrace_trace_desc_rejects p e cpu dev_id dev_name dev_size c T)
        by done.
      eexists _, _, []. split; [reflexivity |].
      cbn [sid traces calls set_sid]. by rewrite app_nil_r.
    + rewrite (iotrace_trace_desc_accepts p e cpu dev_id dev_name dev_size c T)
        by done.
      cbv zeta. eexists _, _, _. split; [reflexivity |].
      cbn [sid traces calls set_calls after_push set_trace_ring set_sid].
      repeat split; [done | by rewrite <- app_assoc | done].
Qed.

Lemma run_emits_ids p ks c T :
  traces c = Some T →
  let ids := map (λ k, u64 (sid c + Z.of_nat k)) (seq 1 (length ks)) in
  ∃ c' new,
    run_emits p ks c = Some (ids, c') ∧
    traces c' = Some T ∧
    sid c' = match ks with
             | [] => sid c
             | _ => u64 (sid c + Z.of_nat (length ks))
             end ∧
    calls c' = calls c ++ new ∧
    pushed_sids new = carried p ks ids.
Proof.
  revert c. induction ks as [|k ks IH]; intros c HT ids.
  - exists c, []. cbn. by rewrite app_nil_r.
  - destruct (emit_call_step p k c T HT)
      as (r & c1 & new1 & Hk & Hsid & HT1 & Hcalls1 & Hpushed1).
    destruct (IH c1 HT1) as (c' & new & Hrun & HT' & Hlast & Hcalls & Hpushed).
    assert (ids = sid c1
                  :: map (λ k, u64 (sid c1 + Z.of_nat k)) (seq 1 (length ks)))
      as Hids.
    { unfold ids. cbn [length seq map]. f_equal; [by rewrite Hsid |].
      rewrite <- seq_shift, map_map. apply map_ext. intros n.
      rewrite Hsid. unfold u64. rewrite Zplus_mod_idemp_l. f_equal. lia. }
    exists c', (new1 ++ new). cbn [run_emits]. rewrite Hk, Hrun, Hids.
    split; [done |]. split; [done |].
    split.
    { rewrite Hlast, Hsid. destruct ks as [|k' ks']; cbn [length].
      - f_equal.
      - unfold u64. rewrite Zplus_mod_idemp_l. f_equal. lia. }
    split; [by rewrite Hcalls, Hcalls1, app_assoc |].
    rewrite pushed_sids_app, Hpushed1, Hpushed. cbn [carried].
    by destruct (rejected p k).
Qed.

Lemma following_sorted first n : StronglySorted Z.lt (following first n).
Proof.
  unfold following. generalize 1%nat as a. induction n as [|n IH]; intros a.
  - constructor.
  - cbn [seq map]. constructor; [apply IH |].
    rewrite Forall_forall. intros x Hx.
    apply list_elem_of_In, in_map_iff in Hx as (k & <- & Hk).
    apply in_seq in Hk. lia.
Qed.

Lemma sorted_NoDup (l : list Z) : StronglySorted Z.lt l → NoDup l.
Proof.
  induction 1 as [|x l Hsorted IH Hall]; constructor; [| done].
  intros Hin. rewrite Forall_forall in Hall. specialize (Hall x Hin). lia.
Qed.

Lemma carried_sublist p ks ids : sublist (carried p ks ids) ids.
Proof.
  revert ids. induction ks as [|k ks IH]; intros [|i ids]; cbn [carried];
    try apply sublist_nil_l.
  destruct (rejected p k); [apply sublist_cons | apply sublist_skip]; apply IH.
Qed.

(** ** Buffer sizing *)

Lemma num_online_cpus_pos e : 0 < num_online_cpus e.
Proof. unfold num_online_cpus, cpu_online. cbn [length]. lia. Qed.

Lemma u64_mebibytes a : u64 (u64 (a * 1024) * 1024) = u64 (a * 2 ^ 20).
Proof.
  unfold u64. rewrite Zmult_mod_idemp_l. f_equal. lia.
Qed.

Lemma iotrace_set_buffer_size_run p e size_mb c :
  iotrace_set_buffer_size p e size_mb c
  = if (iotrace_procfs_max_buffer_size_mb p <? size_mb)
       || (u64 (size_mb * 2 ^ 20) / num_online_cpus e =? 0)
    then Some (- EINVAL, c)
    else Some (0, set_buffer_size
                    (u64 (size_mb * 2 ^ 20) / num_online_cpus e) c).
Proof.
  unfold iotrace_set_buffer_size. rewrite u64_mebibytes.
  by destruct (_ || _).
Qed.

Lemma alloc_each_buffer_size e cpus r0 c r c' :
  alloc_each e cpus r0 c = Some (r, c') →
  buffer_size c' = buffer_size c ∧ clients c' = clients c.
Proof.
  revert r0 c. induction cpus as [|i rest IH]; intros r0 c Hrun.
  - by injection Hrun as _ <-.
  - cbn [alloc_each] in Hrun. unfold iotrace_procfs_trace_file_alloc in Hrun.
    revert Hrun. mred.
    destruct (trace_file_alloc_result e i =? 0) eqn:E; mred; rewrite E.
    + intros Hrun. by apply IH in Hrun.
    + intros Hrun. by injection Hrun as _ <-.
Qed.

(** C8. [iotrace_init_buffers] returns [-EINVAL], the error of both an
    invalid state and an invalid argument, and leaves the context and so
    the stored size as they were, when a client is attached, and when the
    requested total is zero, or above the ceiling, or so small that its
    share for one processor, the total in bytes divided by the number of
    online processors, is zero. *)
Theorem init_buffers_rejects p e size_mb c :
  (0 < clients c →
   iotrace_init_buffers p e size_mb c = Some (- EINVAL, c)) ∧
  (size_mb = 0 ∨
   iotrace_procfs_max_buffer_size_mb p < size_mb ∨
   (0 ≤ size_mb ∧ size_mb * 2 ^ 20 / num_online_cpus e = 0) →
   ∃ c',
     iotrace_init_buffers p e size_mb c = Some (- EINVAL, c') ∧
     buffer_size c' = buffer_size c ∧ c' = c).
Proof.
  split.
  - intros Hc. unfold iotrace_init_buffers, c_true. mred.
    destruct (clients c =? 0) eqn:E; [lia | done].
  - intros Hbad. exists c. split; [| done].
    unfold iotrace_init_buffers, c_true. mred.
    destruct (clients c =? 0); [| done]. cbn [negb].
    rewrite iotrace_set_buffer_size_run.
    pose proof (num_online_cpus_pos e) as HP.
    assert ((iotrace_procfs_max_buffer_size_mb p <? size_mb)
            || (u64 (size_mb * 2 ^ 20) / num_online_cpus e =? 0) = true)
      as ->; [| done].
    apply orb_true_iff.
    destruct Hbad as [-> | [Hmax | [Hlow Hshare]]].
    + right. apply Z.eqb_eq. unfold u64. by rewrite Z.mul_0_l, Zmod_0_l.
    + left. by apply Z.ltb_lt.
    + right. apply Z.eqb_eq. apply Z.div_small.
      apply Z.div_small_iff in Hshare as [Hsmall|Hneg]; [| lia | lia].
      unfold u64.
      pose proof (Z.mod_pos_bound (size_mb * 2 ^ 20) (2 ^ 64) ltac:(lia)).
      pose proof (Z.mod_le (size_mb * 2 ^ 20) (2 ^ 64) ltac:(lia) ltac:(lia)).
      lia.
Qed.

Lemma init_buffers_rejects_witness :
  iotrace_init_buffers example_platform example_env 16 example_context_active
  = Some (- 22, example_context_active) ∧
  iotrace_init_buffers example_platform example_env 0 example_context
  = Some (- 22, example_context) ∧
  iotrace_init_buffers example_platform example_env 1025 example_context
  = Some (- 22, example_context).
Proof.
  destruct (init_buffers_rejects example_platform example_env 16
              example_context_active) as [Hactive _].
  destruct (init_buffers_rejects example_platform example_env 0
              example_context) as [_ Hzero].
  destruct (init_buffers_rejects example_platform example_env 1025
              example_context) as [_ Hceiling].
  split; [apply Hactive; by vm_compute |].
  split.
  - destruct Hzero as (c' & Hrun & _ & ->); [by left | exact Hrun].
  - destruct Hceiling as (c' & Hrun & _ & ->);
      [right; left; by vm_compute | exact Hrun].
Defined.

(** C9. When [iotrace_init_buffers] has succeeded for [X] MiB on [P]
    online processors, the ceiling being below [2^44] MiB so that sizes in
    bytes fit 64 bits, the stored size is [X * 2^20 / P] and
    [iotrace_get_buffer_size] on [P] online processors returns that size
    times [P], divided by [2^20], all divisions rounding down: 1 for
    [X = 1] and [P = 4], and 99 for [X = 100] and [P = 7]. *)
Theorem buffer_size_round_trip p e e' X c c' :
  0 ≤ X →
  iotrace_procfs_max_buffer_size_mb p < 2 ^ 44 →
  iotrace_init_buffers p e X c = Some (0, c') →
  num_online_cpus e' = num_online_cpus e →
  buffer_size c' = X * 2 ^ 20 / num_online_cpus e ∧
  iotrace_get_buffer_size e' c'
  = Some (spec_round_trip X (num_online_cpus e), c') ∧
  spec_round_trip 1 4 = 1 ∧
  spec_round_trip 100 7 = 99.
Proof.
  intros HX Hmax Hrun HP.
  pose proof (num_online_cpus_pos e) as Hpos.
  revert Hrun. unfold iotrace_init_buffers, c_true. mred.
  destruct (clients c =? 0); cbn [negb]; [| by intros [= Hr _]].
  rewrite iotrace_set_buffer_size_run.
  destruct (Z.ltb_spec (iotrace_procfs_max_buffer_size_mb p) X) as [Hgt|Hle];
    cbn [orb]; [by intros [= Hr _] |].
  destruct (_ =? 0); [by intros [= Hr _] |].
  cbn [Z.eqb negb]. intros Hrun.
  apply alloc_each_buffer_size in Hrun as [Hsize _].
  cbn [buffer_size set_buffer_size] in Hsize.
  assert (u64 (X * 2 ^ 20) = X * 2 ^ 20) as Hfit
    by (unfold u64; apply Z.mod_small; lia).
  rewrite Hfit in Hsize.
  split; [done |]. split; [| by vm_compute].
  unfold iotrace_get_buffer_size, gets, spec_round_trip.
  rewrite Hsize, HP. do 2 f_equal.
  pose proof (Z.mul_div_le (X * 2 ^ 20) (num_online_cpus e) Hpos).
  assert (0 ≤ X * 2 ^ 20 / num_online_cpus e) by (apply Z.div_pos; lia).
  unfold u64. rewrite Z.mod_small by lia.
  rewrite Z.div_div by lia. done.
Qed.

Lemma buffer_size_round_trip_witness :
  (∃ c',
     iotrace_init_buffers example_platform example_env 1 example_context
     = Some (0, c') ∧
     buffer_size c' = 262144 ∧
     iotrace_get_buffer_size example_env c' = Some (1, c')) ∧
  (∃ c',
     iotrace_init_buffers example_platform example_env_seven 100
       example_context = Some (0, c') ∧
     buffer_size c' = 14979657 ∧
     iotrace_get_buffer_size example_env_seven c' = Some (99, c')).
Proof.
  split.
  - destruct (iotrace_init_buffers example_platform example_env 1
                example_context) as [[r c']|] eqn:Hrun;
      [| by vm_compute in Hrun].
    assert (r = 0) as -> by (vm_compute in Hrun; congruence).
    destruct (buffer_size_round_trip example_platform example_env example_env
                1 example_context c') as (Hsize & Hget & _);
      [lia | by vm_compute | exact Hrun | reflexivity |].
    exists c'. split; [reflexivity |]. split; [exact Hsize | exact Hget].
  - destruct (iotrace_init_buffers example_platform example_env_seven 100
                example_context) as [[r c']|] eqn:Hrun;
      [| by vm_compute in Hrun].
    assert (r = 0) as -> by (vm_compute in Hrun; congruence).
    destruct (buffer_size_round_trip example_platform example_env_seven
                example_env_seven 100 example_context c')
      as (Hsize & Hget & _);
      [lia | by vm_compute | exact Hrun | reflexivity |].
    exists c'. split; [reflexivity |]. split; [exact Hsize | exact Hget].
Defined.

(** ** Detach without a client *)

(** C10. A detach when the count is zero makes the count -1, which is not
    zero, whatever the width in which it is stored, and returns at once:
    no external call is made, the probe and the handle table are as
    before. The count being negative, the invariant of the data model no
    longer holds, and the sequence is one with more detaches than
    successful attaches; an attach that follows returns success and only
    moves the count back to zero, registering and allocating nothing. *)
Theorem detach_without_client e c :
  clients c = 0 →
  ∃ c',
    iotrace_detach_client e c = Some (tt, c') ∧
    c' = set_clients (- 1) c ∧
    clients c' < 0 ∧
    (∀ width, 0 < width → clients c' mod 2 ^ width ≠ 0) ∧
    calls c' = calls c ∧ probe c' = probe c ∧ traces c' = traces c ∧
    ¬ lifecycle_invariant c' ∧
    detach_within_attach 0 [detach_client e] [0] = false ∧
    ∀ e2,
      iotrace_attach_client e2 c' = Some (0, set_clients 0 c') ∧
      calls (set_clients 0 c') = calls c.
Proof.
  intros Hc. exists (set_clients (- 1) c).
  split; [rewrite detach_other by lia; by rewrite Hc |].
  split; [done |]. split; [cbn; lia |].
  split.
  { intros width Hwidth. cbn [clients set_clients].
    assert (2 ≤ 2 ^ width)
      by (change 2 with (2 ^ 1) at 1; apply Z.pow_le_mono_r; lia).
    rewrite (Z.mod_opp_l_nz 1) by (rewrite ?Z.mod_small; lia).
    rewrite Z.mod_small; lia. }
  repeat split; try done.
  intros (Hnonneg & _). cbn in Hnonneg. lia.
Qed.

Lemma detach_without_client_witness :
  iotrace_detach_client example_env example_context
  = Some (tt, set_clients (- 1) example_context) ∧
  iotrace_attach_client example_env (set_clients (- 1) example_context)
  = Some (0, example_context).
Proof.
  destruct (detach_without_client example_env example_context eq_refl)
    as (c' & Hdetach & -> & _ & _ & _ & _ & _ & _ & _ & Hattach).
  split; [exact Hdetach |].
  destruct (Hattach example_env) as [-> _]. reflexivity.
Defined.

(** ** Emit calls that overlap *)

(** The two parts of a call, one after the other, are the call. *)
Lemma emit_start_finish p k c :
  (emit_start k ≫= emit_finish p) c = do_emit_call p k c.
Proof.
  destruct k as [e cpu dev_id b|e cpu dev_id dev_name dev_size];
    unfold emit_start, emit_finish, do_emit_call, iotrace_trace_bio,
      iotrace_trace_desc, atomic64_inc_return, per_cpu_trace; mred;
    cbn [fl_call fl_trace fl_sid traces set_sid].
  - destruct (traces c); [| done].
    by destruct (octf_trace_push _ _ _ _ _ _) as [[r c']|].
  - destruct (traces c); [| done]. mred. cbn [fl_call fl_trace fl_sid].
    destruct (_ <=? _)%nat; [done |].
    by destruct (octf_trace_push _ _ _ _ _ _) as [[r c']|].
Qed.

Lemma emit_start_run k c T :
  traces c = Some T →
  ∃ f,
    emit_start k c = Some (f, set_sid (u64 (sid c + 1)) c) ∧
    fl_sid f = u64 (sid c + 1).
Proof.
  intros HT. destruct k as [e cpu dev_id b|e cpu dev_id dev_name dev_size];
    unfold emit_start.
  - eexists. split; reflexivity.
  - unfold mbind at 1, M_bind at 1.
    rewrite (per_cpu_trace_run cpu c T HT). eexists. split; reflexivity.
Qed.

Lemma emit_finish_run p f c T :
  traces c = Some T →
  ∃ r c' new,
    emit_finish p f c = Some (r, c') ∧
    sid c' = sid c ∧
    traces c' = Some T ∧
    calls c' = calls c ++ new ∧
    (pushed_sids new = [fl_sid f] ∨ pushed_sids new = []).
Proof.
  intros HT. unfold emit_finish.
  destruct (fl_call f) as [e cpu dev_id b|e cpu dev_id dev_name dev_size].
  - unfold mbind at 1, M_bind at 1.
    rewrite (per_cpu_trace_run cpu c T HT).
    unfold mbind at 1, M_bind at 1. rewrite octf_trace_push_run.
    eexists _, _, _. split; [reflexivity |].
    cbn [sid traces calls set_calls after_push set_trace_ring].
    repeat split; [done | by rewrite <- app_assoc | by left].
  - destruct (_ <=? _)%nat.
    + eexists _, c, []. split; [reflexivity |].
      rewrite app_nil_r. repeat split; [done | by right].
    + destruct (fl_trace f) eqn:Htrace.
      * unfold octf_trace_push, iotrace_notify_of_new_events. mred.
        destruct (octf_trace_push_result e =? 0);
          (eexists _, _, _; split; [reflexivity |]);
          cbn [sid traces calls set_calls set_trace_ring];
          (repeat split; [done | by rewrite <- app_assoc | by left]).
      * unfold octf_trace_push, iotrace_notify_of_new_events. mred.
        change (- EINVAL =? 0) with false. cbn iota.
        eexists _, _, _. split; [reflexivity |].
        cbn [sid traces calls set_calls set_trace_ring].
        repeat split; [done | by rewrite <- app_assoc | by left].
Qed.

Lemma following_S first n :
  following first (S n) = (first + 1) :: following (first + 1) n.
Proof.
  unfold following. cbn [seq map]. f_equal.
  rewrite <- seq_shift, map_map. apply map_ext. intros k. lia.
Qed.

Lemma elem_of_following first n x :
  x ∈ following first n → first < x ≤ first + Z.of_nat n.
Proof.
  unfold following. intros Hx.
  apply list_elem_of_In, in_map_iff in Hx as (k & <- & Hk).
  apply in_seq in Hk. lia.
Qed.

(** Taking a call out of those in flight keeps their ids distinct, and
    its id is not among those that remain. *)
Lemma delete_in_flight (pend : list in_flight) n f :
  pend !! n = Some f →
  NoDup (map fl_sid pend) →
  NoDup (map fl_sid (delete n pend)) ∧
  (fl_sid f ∉ map fl_sid (delete n pend)) ∧
  ∀ x, x ∈ map fl_sid (delete n pend) → x ∈ map fl_sid pend.
Proof.
  revert n. induction pend as [|a pend IH]; intros [|n] Hn Hnodup;
    cbn in Hn; try done.
  - injection Hn as ->. cbn [map] in Hnodup.
    apply NoDup_cons in Hnodup as [Hnotin Hnodup].
    cbn. split; [done |]. split; [done |]. intros x Hx. by right.
  - cbn [map] in Hnodup. apply NoDup_cons in Hnodup as [Hnotin Hnodup].
    destruct (IH n Hn Hnodup) as (Hnodup' & Hf & Hsub).
    change (delete (S n) (a :: pend)) with (a :: delete n pend).
    cbn [map]. split; [| split].
    + apply NoDup_cons. split; [| done]. intros Ha. by apply Hnotin, Hsub.
    + intros Hin. apply elem_of_cons in Hin as [Heq|Hin]; [| done].
      apply Hnotin. rewrite <- Heq.
      apply list_elem_of_In, in_map, list_elem_of_In.
      by eapply list_elem_of_lookup_2.
    + intros x Hx. apply elem_of_cons in Hx as [->|Hx]; [by left |].
      right. by apply Hsub.
Qed.

Lemma run_schedule_ids p acts pend c T :
  traces c = Some T →
  0 ≤ sid c →
  sid c + Z.of_nat (starts acts) < 2 ^ 64 →
  Forall (λ f, fl_sid f ≤ sid c) pend →
  NoDup (map fl_sid pend) →
  ∃ pend' c' new,
    run_schedule p acts pend c
    = Some (following (sid c) (starts acts), pend', c') ∧
    sid c' = sid c + Z.of_nat (starts acts) ∧
    calls c' = calls c ++ new ∧
    NoDup (pushed_sids new) ∧
    ∀ x, x ∈ pushed_sids new →
         x ∈ map fl_sid pend ∨ x ∈ following (sid c) (starts acts).
Proof.
  revert pend c. induction acts as [|[k|n] acts IH];
    intros pend c HT Hlow Hhigh Hpend Hnodup.
  - exists pend, c, []. cbn. rewrite app_nil_r, Z.add_0_r.
    repeat split; [constructor |]. intros x Hx. by apply elem_of_nil in Hx.
  - cbn [starts] in *.
    destruct (emit_start_run k c T HT) as (f & Hstart & Hsid).
    assert (u64 (sid c + 1) = sid c + 1) as Hnowrap
      by (unfold u64; apply Z.mod_small; lia).
    rewrite Hnowrap in Hstart, Hsid.
    destruct (IH (pend ++ [f]) (set_sid (sid c + 1) c))
      as (pend' & c' & new & Hrun & Hlast & Hcalls & Hdistinct & Hdrawn).
    + done.
    + cbn. lia.
    + cbn [sid set_sid]. lia.
    + apply Forall_app. split.
      * eapply Forall_impl; [exact Hpend |]. cbn. intros; lia.
      * repeat constructor. cbn. lia.
    + rewrite map_app. apply NoDup_app. split; [done |]. split.
      * intros x Hx Hin. cbn in Hin. apply list_elem_of_singleton in Hin.
        apply list_elem_of_In, in_map_iff in Hx as (g & <- & Hg).
        rewrite Forall_forall in Hpend.
        apply list_elem_of_In in Hg. specialize (Hpend g Hg). cbn in Hpend. lia.
      * cbn. apply NoDup_singleton.
    + exists pend', c', new. cbn [run_schedule]. rewrite Hstart, Hrun.
      cbn [sid set_sid] in *. rewrite following_S, Hsid.
      split; [done |]. split; [lia |]. split; [done |]. split; [done |].
      intros x Hx. destruct (Hdrawn x Hx) as [Hin|Hin].
      * rewrite map_app in Hin. apply elem_of_app in Hin as [Hin|Hin];
          [by left |].
        cbn in Hin. apply list_elem_of_singleton in Hin.
        right. rewrite Hin, Hsid. left.
      * right. by right.
  - cbn [starts run_schedule] in *.
    destruct (pend !! n) as [f|] eqn:Hn; [| by apply IH].
    destruct (emit_finish_run p f c T HT)
      as (r & c1 & new1 & Hfinish & Hsid1 & HT1 & Hcalls1 & Hpushed1).
    destruct (delete_in_flight pend n f Hn Hnodup) as (Hnodup' & Hf & Hsub).
    destruct (IH (delete n pend) c1)
      as (pend' & c' & new & Hrun & Hlast & Hcalls & Hdistinct & Hdrawn).
    + done.
    + lia.
    + lia.
    + rewrite Hsid1. by apply Forall_delete.
    + done.
    + rewrite Hsid1 in *. exists pend', c', (new1 ++ new).
      rewrite Hfinish, Hrun. split; [done |]. split; [done |].
      split; [by rewrite Hcalls, Hcalls1, app_assoc |].
      assert (fl_sid f ≤ sid c) as Hle.
      { rewrite Forall_forall in Hpend. apply (Hpend f).
        by eapply list_elem_of_lookup_2. }
      assert (∀ x, x ∈ pushed_sids new →
                   x ∈ map fl_sid pend ∨ x ∈ following (sid c) (starts acts))
        as Hdrawn'.
      { intros x Hx. destruct (Hdrawn x Hx) as [Hin|Hin]; [left | by right].
        by apply Hsub. }
      rewrite pushed_sids_app.
      destruct Hpushed1 as [-> | ->]; [| done].
      split.
      * cbn. apply NoDup_cons. split; [| done]. intros Hin.
        destruct (Hdrawn _ Hin) as [Hin'|Hin']; [done |].
        apply elem_of_following in Hin'. lia.
      * intros x Hx. cbn in Hx. apply elem_of_cons in Hx as [->|Hx].
        -- left. apply list_elem_of_In, in_map, list_elem_of_In.
           by eapply list_elem_of_lookup_2.
        -- by apply Hdrawn'.
Qed.

(** C4. With the handle table allocated and the counter not reaching
    [2^64], the ids that a sequence of emit calls draws, of both kinds and
    from any processors, are the successors of the counter, one after the
    other: each is the one before plus one, so that they increase strictly
    and none is drawn twice or left out. Every record handed to the trace
    library carries the id that its call drew: the ids of these records
    are, in order, the ids drawn by the calls that are not rejected for
    the length of the name. The same holds of the ids drawn, in the order
    of the atomic increments, when the calls overlap in any way; the
    records handed to the trace library then carry ids that were drawn
    and that differ from one another. *)
Theorem sequence_ids_increase p c T :
  traces c = Some T →
  0 ≤ sid c →
  (∀ ks,
     sid c + Z.of_nat (length ks) < 2 ^ 64 →
     ∃ ids c' new,
       run_emits p ks c = Some (ids, c') ∧
       ids = following (sid c) (length ks) ∧
       StronglySorted Z.lt ids ∧
       NoDup ids ∧
       sid c' = sid c + Z.of_nat (length ks) ∧
       calls c' = calls c ++ new ∧
       pushed_sids new = carried p ks ids ∧
       sublist (pushed_sids new) ids) ∧
  (∀ acts,
     sid c + Z.of_nat (starts acts) < 2 ^ 64 →
     ∃ ids pend' c' new,
       run_schedule p acts [] c = Some (ids, pend', c') ∧
       ids = following (sid c) (starts acts) ∧
       StronglySorted Z.lt ids ∧
       NoDup ids ∧
       sid c' = sid c + Z.of_nat (starts acts) ∧
       calls c' = calls c ++ new ∧
       NoDup (pushed_sids new) ∧
       ∀ x, x ∈ pushed_sids new → x ∈ ids).
Proof.
  intros HT Hlow. split.
  - intros ks Hhigh.
    destruct (run_emits_ids p ks c T HT)
      as (c' & new & Hrun & _ & Hlast & Hcalls & Hpushed).
    assert (map (λ k, u64 (sid c + Z.of_nat k)) (seq 1 (length ks))
            = following (sid c) (length ks)) as Hids.
    { apply map_ext_in. intros k Hk. apply in_seq in Hk.
      unfold u64. apply Z.mod_small. lia. }
    cbv zeta in Hrun, Hpushed. rewrite Hids in Hrun, Hpushed.
    exists (following (sid c) (length ks)), c', new.
    pose proof (following_sorted (sid c) (length ks)) as Hsorted.
    repeat split; try done.
    + by apply sorted_NoDup.
    + rewrite Hlast. destruct ks as [|k ks]; [cbn; lia |].
      unfold u64. apply Z.mod_small. lia.
    + rewrite Hpushed. apply carried_sublist.
  - intros acts Hhigh.
    destruct (run_schedule_ids p acts [] c T HT Hlow Hhigh)
      as (pend' & c' & new & Hrun & Hlast & Hcalls & Hdistinct & Hdrawn);
      [constructor | constructor |].
    exists (following (sid c) (starts acts)), pend', c', new.
    pose proof (following_sorted (sid c) (starts acts)) as Hsorted.
    repeat split; try done.
    + by apply sorted_NoDup.
    + intros x Hx. destruct (Hdrawn x Hx) as [Hin|Hin]; [| done].
      by apply elem_of_nil in Hin.
Qed.

Lemma sequence_ids_increase_witness :
  (∃ c' new,
     run_emits example_platform example_emits example_context_active
     = Some ([42; 43; 44; 45; 46], c') ∧
     calls c' = new ∧
     pushed_sids new = [42; 43; 45; 46]) ∧
  (∃ c' new,
     run_schedule example_platform example_schedule [] example_context_active
     = Some ([42; 43; 44], [], c') ∧
     calls c' = new ∧
     pushed_sids new = [44; 43; 42]).
Proof.
  destruct (sequence_ids_increase example_platform example_context_active
              (list_to_set [0; 1; 2; 3]%nat))
    as [Hseq Hoverlap]; [reflexivity | by vm_compute |].
  split.
  - destruct (Hseq example_emits)
      as (ids & c' & new & Hrun & Hids & _ & _ & _ & Hcalls & Hpushed & _);
      [by vm_compute |].
    exists c', new. rewrite Hids in Hrun, Hpushed.
    split; [exact Hrun |]. split; [exact Hcalls |]. exact Hpushed.
  - destruct (Hoverlap example_schedule)
      as (ids & pend' & c' & new & Hrun & Hids & _ & _ & _ & Hcalls & _);
      [by vm_compute |].
    exists c', new. rewrite Hids in Hrun.
    assert (pend' = [] ∧ pushed_sids (calls c') = [44; 43; 42])
      as [-> Hpushed].
    { vm_compute in Hrun. injection Hrun as <- <-. split; reflexivity. }
    split; [exact Hrun |]. split; [exact Hcalls |].
    rewrite Hcalls in Hpushed. exact Hpushed.
Defined.

(** * Further properties of the code *)

(** ** Tracer life cycle *)

(** X1. Whatever the context it is called in, [init_tracers] returns; it
    returns zero exactly when the table is allocated and every online
    processor has its ring and opens. It then leaves the table allocated
    with the handles of the online processors open, and otherwise leaves
    no table; the count, the probe, the counter, the size and the rings
    are those of before. *)
Theorem init_tracers_outcome e c :
  ∃ r c',
    init_tracers e c = Some (r, c') ∧
    (r = 0 ↔
     alloc_percpu_ok e = true ∧ Forall (opens_ok e c) (cpu_online e)) ∧
    traces c'
    = (if r =? 0 then Some (list_to_set (cpu_online e)) else None) ∧
    clients c' = clients c ∧ probe c' = probe c ∧ sid c' = sid c ∧
    buffer_size c' = buffer_size c ∧ trace_ring c' = trace_ring c.
Proof.
  destruct (alloc_percpu_ok e) eqn:Ha.
  - destruct (first_stop e c (cpu_online e))
      as [Hall|(pre & i & post & Hcpus & Hpre & Hi)].
    + rewrite init_tracers_opens_all by done.
      eexists _, _. split; [reflexivity |]. by repeat split.
    + pose proof (stop_result_nonzero e c i Hi) as Hnz.
      rewrite (init_tracers_rolls_back e c pre i post) by done.
      eexists _, _. split; [reflexivity |].
      destruct (stop_result e c i =? 0) eqn:E; [lia |].
      repeat split; try done.
      intros [_ Hall]. rewrite Hcpus in Hall.
      apply Forall_app in Hall as [_ Hall].
      by apply Forall_cons in Hall as [Hok _].
  - rewrite init_tracers_no_table by done.
    eexists _, _. split; [reflexivity |].
    change (- ENOMEM =? 0) with false.
    repeat split; try done. by intros [? _].
Qed.

(** X2. The local variable [result] of [init_tracers] is assigned before
    it is read: the value that it holds when the function is entered has
    no effect on what [init_tracers] and [iotrace_attach_client] return or
    leave. *)
Theorem init_tracers_ignores_uninitialized v e c :
  init_tracers (with_uninitialized_result v e) c = init_tracers e c ∧
  iotrace_attach_client (with_uninitialized_result v e) c
  = iotrace_attach_client e c.
Proof.
  assert (init_tracers (with_uninitialized_result v e) c = init_tracers e c)
    as Hinit.
  { destruct (alloc_percpu_ok e) eqn:Ha.
    - destruct (first_stop e c (cpu_online e))
        as [Hall|(pre & i & post & Hcpus & Hpre & Hi)].
      + rewrite (init_tracers_opens_all e c Ha Hall).
        exact (init_tracers_opens_all (with_uninitialized_result v e) c Ha Hall).
      + rewrite (init_tracers_rolls_back e c pre i post Ha Hcpus Hpre Hi).
        exact (init_tracers_rolls_back (with_uninitialized_result v e) c
                 pre i post Ha Hcpus Hpre Hi).
    - rewrite (init_tracers_no_table e c Ha).
      exact (init_tracers_no_table (with_uninitialized_result v e) c Ha). }
  split; [done |].
  unfold iotrace_attach_client. mred.
  destruct (clients c =? 0); cbn [negb]; [| done].
  by rewrite Hinit.
Qed.

(** X3. The last detach closes the handles of the processors that are
    online when it runs, and those only, before it releases the table: the
    open handle of a processor that is no longer online is not closed. *)
Theorem detach_leaves_offline_handles e c T i :
  clients c = 1 →
  traces c = Some T →
  i ∈ T →
  i ∉ cpu_online e →
  ∃ c' new,
    iotrace_detach_client e c = Some (tt, c') ∧
    calls c' = calls c ++ new ∧
    traces c' = None ∧
    call_free_percpu ∈ new ∧
    (call_octf_trace_close i ∉ new) ∧
    ∀ j, j ∈ cpu_online e → call_octf_trace_close j ∈ new.
Proof.
  intros Hc HT Hi Hoff. rewrite (detach_last e c T Hc HT).
  eexists _, _. split; [reflexivity |]. split; [reflexivity |].
  split; [done |]. split; [| split].
  - do 2 apply list_elem_of_further. apply elem_of_app. right. left.
  - intros Hin. do 2 (apply elem_of_cons in Hin as [Hin|Hin]; [done |]).
    apply elem_of_app in Hin as [Hin|Hin].
    + unfold close_calls in Hin.
      apply list_elem_of_In, in_map_iff in Hin as (j & [= ->] & Hj).
      by apply list_elem_of_In in Hj.
    + apply list_elem_of_singleton in Hin. done.
  - intros j Hj. do 2 apply list_elem_of_further. apply elem_of_app. left.
    apply list_elem_of_In, in_map, list_elem_of_In. done.
Qed.

Lemma detach_leaves_offline_handles_witness :
  ∃ c' new,
    iotrace_detach_client example_env_offline example_context_active
    = Some (tt, c') ∧
    calls c' = new ∧
    traces c' = None ∧
    call_octf_trace_close 3 ∉ new.
Proof.
  destruct (detach_leaves_offline_handles example_env_offline
              example_context_active (list_to_set [0; 1; 2; 3]%nat) 3%nat)
    as (c' & new & Hrun & Hcalls & Htraces & _ & Hleft & _);
    [reflexivity | reflexivity | by_decide | by_decide |].
  exists c', new. by repeat split.
Defined.

(** ** Clients *)

(** X4. While a client is attached, an attach followed by a detach, and
    with two clients or more a detach followed by an attach, make no
    external call, do not fail and give back the context as it was. *)
Theorem attach_detach_round_trip e1 e2 c :
  (0 < clients c →
   ∃ c1,
     iotrace_attach_client e1 c = Some (0, c1) ∧
     calls c1 = calls c ∧ clients c1 = clients c + 1 ∧
     iotrace_detach_client e2 c1 = Some (tt, c)) ∧
  (1 < clients c →
   ∃ c1,
     iotrace_detach_client e2 c = Some (tt, c1) ∧
     calls c1 = calls c ∧ clients c1 = clients c - 1 ∧
     iotrace_attach_client e1 c1 = Some (0, c)).
Proof.
  split; intros Hc.
  - eexists. rewrite attach_more by lia. split; [reflexivity |].
    split; [done |]. split; [done |].
    rewrite detach_other by (cbn; lia).
    destruct c; cbn. unfold set_clients; cbn. do 3 f_equal. lia.
  - eexists. rewrite detach_other by lia. split; [reflexivity |].
    split; [done |]. split; [done |].
    rewrite attach_more by (cbn; lia).
    destruct c; cbn. unfold set_clients; cbn. do 3 f_equal. lia.
Qed.

Lemma attach_detach_round_trip_witness :
  ∃ c1,
    iotrace_attach_client example_env_open_fails example_context_active
    = Some (0, c1) ∧
    clients c1 = 2 ∧
    iotrace_detach_client example_env c1 = Some (tt, example_context_active).
Proof.
  destruct (attach_detach_round_trip example_env_open_fails example_env
              example_context_active) as [Hround _].
  destruct Hround as (c1 & Hattach & _ & Hclients & Hdetach); [by vm_compute |].
  exists c1. by repeat split.
Defined.

(** ** What the calls leave alone *)

Lemma preserves_ret {A B} (f : iotrace_context → B) (a : A) :
  preserves f (mret a).
Proof. intros c a' c' [= _ <-]. done. Qed.

Lemma preserves_bind {A B C} (f : iotrace_context → C) (m : M A)
    (k : A → M B) :
  preserves f m → (∀ a, preserves f (k a)) → preserves f (m ≫= k).
Proof.
  intros Hm Hk c b c'. unfold mbind, M_bind.
  destruct (m c) as [[a c1]|] eqn:E; [| done].
  intros Hrun. rewrite (Hk a c1 b c' Hrun). by eapply Hm.
Qed.

Lemma preserves_gets {A B} (f : iotrace_context → B)
    (g : iotrace_context → A) :
  preserves f (gets g).
Proof. intros c a c' [= _ <-]. done. Qed.

Lemma preserves_modify {B} (f : iotrace_context → B)
    (g : iotrace_context → iotrace_context) :
  (∀ c, f (g c) = f c) → preserves f (modify g).
Proof. intros Hg c a c' [= _ <-]. apply Hg. Qed.

Lemma preserves_invalid_access {A B} (f : iotrace_context → B) :
  preserves f (invalid_access (A := A)).
Proof. intros c a c' [=]. Qed.

(** Splits a computation along its binds and branches, closing with
    [known] the parts that it applies to; what remains are the updates of
    the context. *)
Ltac frame_with known :=
  repeat first
    [ known
    | apply preserves_ret
    | apply preserves_gets
    | apply preserves_invalid_access
    | apply preserves_modify; intros ?; reflexivity
    | apply preserves_bind; [| intros ?]
    | match goal with
      | |- preserves _ (if ?b then _ else _) => destruct b
      | |- preserves _ (match ?x with _ => _ end) => destruct x
      end ].

Ltac frame := frame_with fail.

Lemma close_each_sized cpus : preserves sized (close_each cpus).
Proof.
  induction cpus as [|i rest IH]; cbn [close_each]; [apply preserves_ret |].
  apply preserves_bind; [| done].
  unfold octf_trace_close, record_call. frame.
Qed.

Lemma open_each_sized e cpus r0 : preserves sized (open_each e cpus r0).
Proof.
  revert r0. induction cpus as [|i rest IH]; intros r0; cbn [open_each];
    [apply preserves_ret |].
  unfold octf_trace_open, record_call. frame_with ltac:(apply IH).
Qed.

Lemma deinit_tracers_sized e : preserves sized (deinit_tracers e).
Proof.
  unfold deinit_tracers, free_percpu, record_call.
  frame_with ltac:(apply close_each_sized).
Qed.

Lemma init_tracers_sized e : preserves sized (init_tracers e).
Proof.
  unfold init_tracers, alloc_percpu, free_percpu, record_call.
  frame_with ltac:(apply close_each_sized || apply open_each_sized).
Qed.

Lemma attach_sized e : preserves sized (iotrace_attach_client e).
Proof.
  unfold iotrace_attach_client, register_trace_block_bio_queue, record_call.
  frame_with ltac:(apply init_tracers_sized || apply deinit_tracers_sized).
Qed.

Lemma detach_sized e : preserves sized (iotrace_detach_client e).
Proof.
  unfold iotrace_detach_client, unregister_trace_block_bio_queue, record_call.
  frame_with ltac:(apply deinit_tracers_sized).
Qed.

Lemma client_call_sized k : preserves sized (do_client_call k).
Proof.
  destruct k as [e|e]; cbn [do_client_call]; [apply attach_sized |].
  frame_with ltac:(apply detach_sized).
Qed.

Lemma trace_bio_attached p e cpu dev_id b :
  preserves attached (iotrace_trace_bio p e cpu dev_id b).
Proof.
  unfold iotrace_trace_bio, atomic64_inc_return, per_cpu_trace,
    octf_trace_push, iotrace_notify_of_new_events, record_call.
  frame.
Qed.

Lemma trace_desc_attached p e cpu dev_id dev_name dev_size :
  preserves attached (iotrace_trace_desc p e cpu dev_id dev_name dev_size).
Proof.
  unfold iotrace_trace_desc, atomic64_inc_return, per_cpu_trace,
    octf_trace_push, iotrace_notify_of_new_events, record_call.
  frame.
Qed.

Lemma octf_trace_push_other_ring e trace cpu r size j :
  j ≠ cpu →
  preserves (λ c, (buffer_size c, trace_ring c !! j))
    (octf_trace_push e trace cpu r size).
Proof.
  intros Hj. unfold octf_trace_push, record_call. frame.
  apply preserves_modify. intros c. cbn. by rewrite lookup_alter_ne.
Qed.

Lemma trace_bio_other_ring p e cpu dev_id b j :
  j ≠ cpu →
  preserves (λ c, (buffer_size c, trace_ring c !! j))
    (iotrace_trace_bio p e cpu dev_id b).
Proof.
  intros Hj.
  unfold iotrace_trace_bio, atomic64_inc_return, per_cpu_trace,
    iotrace_notify_of_new_events, record_call.
  frame_with ltac:(by apply octf_trace_push_other_ring).
Qed.

Lemma trace_desc_other_ring p e cpu dev_id dev_name dev_size j :
  j ≠ cpu →
  preserves (λ c, (buffer_size c, trace_ring c !! j))
    (iotrace_trace_desc p e cpu dev_id dev_name dev_size).
Proof.
  intros Hj.
  unfold iotrace_trace_desc, atomic64_inc_return, per_cpu_trace,
    iotrace_notify_of_new_events, record_call.
  frame_with ltac:(by apply octf_trace_push_other_ring).
Qed.

Lemma alloc_each_attached e cpus r0 :
  preserves (λ c, (sid c, attached c)) (alloc_each e cpus r0).
Proof.
  revert r0. induction cpus as [|i rest IH]; intros r0; cbn [alloc_each];
    [apply preserves_ret |].
  unfold iotrace_procfs_trace_file_alloc, record_call, c_true.
  frame_with ltac:(apply IH).
Qed.

Lemma init_buffers_attached p e size_mb :
  preserves (λ c, (sid c, attached c)) (iotrace_init_buffers p e size_mb).
Proof.
  unfold iotrace_init_buffers, iotrace_set_buffer_size, c_true.
  frame_with ltac:(apply alloc_each_attached).
Qed.

Lemma alloc_each_total e cpus r0 c :
  ∃ r c', alloc_each e cpus r0 c = Some (r, c').
Proof.
  revert r0 c. induction cpus as [|i rest IH]; intros r0 c; cbn [alloc_each].
  - by eexists _, _.
  - unfold iotrace_procfs_trace_file_alloc. mred.
    destruct (trace_file_alloc_result e i =? 0) eqn:E; mred; rewrite E;
      cbn [negb]; [apply IH | by eexists _, _].
Qed.

Lemma init_buffers_total p e size_mb c :
  ∃ r c', iotrace_init_buffers p e size_mb c = Some (r, c').
Proof.
  unfold iotrace_init_buffers. mred.
  destruct (clients c =? 0); cbn [negb]; [| by eexists _, _].
  rewrite iotrace_set_buffer_size_run.
  destruct (_ || _); cbn [Z.eqb negb]; [by eexists _, _ |].
  change (- EINVAL =? 0) with false. apply alloc_each_total.
Qed.

(** ** Runs of life cycle and sizing calls *)

Lemma init_buffers_busy p e size_mb c :
  clients c ≠ 0 →
  iotrace_init_buffers p e size_mb c = Some (- EINVAL, c).
Proof.
  intros Hc. unfold iotrace_init_buffers. mred.
  destruct (clients c =? 0) eqn:E; [lia | done].
Qed.

Lemma api_call_step p a c :
  coherent c →
  ∃ r c', do_api_call p a c = Some (r, c') ∧ coherent c'.
Proof.
  intros Hc. destruct a as [k|e size_mb]; cbn [do_api_call].
  - destruct (client_call_step k c Hc) as (r & c' & Hk & Hc' & _).
    by exists r, c'.
  - destruct (init_buffers_total p e size_mb c) as (r & c' & Hrun).
    exists r, c'. split; [done |].
    pose proof (init_buffers_attached p e size_mb c r c' Hrun) as [= _ Hcl Hp Ht].
    unfold coherent in *. by rewrite Hcl, Hp, Ht.
Qed.

Lemma run_api_invariant p acts c (I : iotrace_context → Prop) :
  coherent c → I c →
  (∀ a c1 r c2,
     coherent c1 → I c1 → do_api_call p a c1 = Some (r, c2) → I c2) →
  ∃ tr, run_api p acts c = Some tr ∧
        Forall (λ rc, coherent rc.2 ∧ I rc.2) tr.
Proof.
  intros Hc HI Hstep. revert c Hc HI.
  induction acts as [|a acts IH]; intros c Hc HI.
  - exists []. split; [done | constructor].
  - destruct (api_call_step p a c Hc) as (r & c' & Ha & Hc').
    pose proof (Hstep a c r c' Hc HI Ha) as HI'.
    destruct (IH c' Hc' HI') as (tr & Hrun & Hall).
    exists ((r, c') :: tr). cbn [run_api]. rewrite Ha, Hrun.
    split; [done |]. by constructor.
Qed.

Lemma run_api_steps p acts c (P : iotrace_context → iotrace_context → Prop) :
  coherent c →
  (∀ a c1 r c2, coherent c1 → do_api_call p a c1 = Some (r, c2) → P c1 c2) →
  ∃ tr, run_api p acts c = Some tr ∧
        Forall (λ cc, P cc.1 cc.2) (steps c tr).
Proof.
  intros Hc Hstep. revert c Hc.
  induction acts as [|a acts IH]; intros c Hc.
  - exists []. split; [done | constructor].
  - destruct (api_call_step p a c Hc) as (r & c' & Ha & Hc').
    destruct (IH c' Hc') as (tr & Hrun & Hall).
    exists ((r, c') :: tr). cbn [run_api]. rewrite Ha, Hrun.
    split; [done |]. cbn [steps]. constructor; [| done].
    by apply (Hstep a c r c').
Qed.

Lemma idle_coherent c : idle c → coherent c.
Proof. intros (Hc & Hp & Ht). split; [lia | done]. Qed.

(** X5. No sequence of attach and detach calls, from any context, changes
    the sequence counter, the stored size or the rings: the sequence ids
    go on where they were when tracing is taken up again. *)
Theorem lifecycle_keeps_counter_and_rings ks c tr :
  run_clients ks c = Some tr →
  Forall (λ rc, sid rc.2 = sid c ∧ buffer_size rc.2 = buffer_size c ∧
                trace_ring rc.2 = trace_ring c) tr.
Proof.
  revert c tr. induction ks as [|k ks IH]; intros c tr Hrun.
  - injection Hrun as <-. constructor.
  - cbn [run_clients] in Hrun.
    destruct (do_client_call k c) as [[r c']|] eqn:Hk; [| done].
    destruct (run_clients ks c') as [tr'|] eqn:Hrun'; [| done].
    injection Hrun as <-.
    pose proof (client_call_sized k c r c' Hk) as [= Hsid Hsize Hring].
    constructor; [done |].
    eapply Forall_impl; [by apply IH |].
    cbn. intros rc (-> & -> & ->). done.
Qed.

Lemma lifecycle_keeps_counter_and_rings_witness :
  ∃ tr,
    run_clients example_calls example_context_active = Some tr ∧
    Forall (λ rc, sid rc.2 = 41) tr ∧
    counts tr = [2; 3; 2; 1; 2; 3].
Proof.
  destruct (run_clients example_calls example_context_active) as [tr|] eqn:Hrun;
    [| by vm_compute in Hrun].
  pose proof (lifecycle_keeps_counter_and_rings example_calls
                example_context_active tr Hrun) as Hkept.
  exists tr. split; [done |]. split.
  - eapply Forall_impl; [exact Hkept |]. by intros rc (-> & _).
  - vm_compute in Hrun. injection Hrun as <-. reflexivity.
Defined.

(** X6. Where they return, [iotrace_trace_bio], [iotrace_trace_desc] and
    [bio_queue_event] leave the client count, the probe and the handle
    table as they were, and neither the stored size nor the ring of any
    processor but the one they are called for is changed. *)
Theorem emitters_keep_to_their_processor p e cpu dev_id b dev_name dev_size k :
  preserves attached (iotrace_trace_bio p e cpu dev_id b) ∧
  preserves attached (iotrace_trace_desc p e cpu dev_id dev_name dev_size) ∧
  preserves attached (bio_queue_event p k) ∧
  (∀ j, j ≠ cpu →
        preserves (λ c, (buffer_size c, trace_ring c !! j))
          (iotrace_trace_bio p e cpu dev_id b) ∧
        preserves (λ c, (buffer_size c, trace_ring c !! j))
          (iotrace_trace_desc p e cpu dev_id dev_name dev_size)) ∧
  (∀ j, j ≠ pc_cpu k →
        preserves (λ c, (buffer_size c, trace_ring c !! j))
          (bio_queue_event p k)).
Proof.
  split; [apply trace_bio_attached |].
  split; [apply trace_desc_attached |].
  split.
  { unfold bio_queue_event. frame_with ltac:(apply trace_bio_attached). }
  split.
  - intros j Hj. split;
      [by apply trace_bio_other_ring | by apply trace_desc_other_ring].
  - intros j Hj. unfold bio_queue_event.
    frame_with ltac:(by apply trace_bio_other_ring).
Qed.

Lemma emitters_keep_to_their_processor_witness :
  ∃ c',
    bio_queue_event example_platform example_probe_call example_context_active
    = Some (tt, c') ∧
    attached c' = attached example_context_active ∧
    trace_ring c' !! 1%nat = Some [] ∧
    trace_ring c' !! 3%nat = Some [].
Proof.
  destruct (bio_queue_event example_platform example_probe_call
              example_context_active) as [[[] c']|] eqn:Hrun;
    [| by vm_compute in Hrun].
  destruct (emitters_keep_to_their_processor example_platform example_env
              2%nat 7 example_bio_read "" 0 example_probe_call)
    as (_ & _ & Hattached & _ & Hrings).
  exists c'. split; [done |].
  split; [exact (Hattached _ _ _ Hrun) |].
  split.
  - pose proof (Hrings 1%nat ltac:(by vm_compute) _ _ _ Hrun) as [= _ ->].
    reflexivity.
  - pose proof (Hrings 3%nat ltac:(by vm_compute) _ _ _ Hrun) as [= _ ->].
    reflexivity.
Defined.

(** ** The probe and the handle table over a run *)

Lemma trace_desc_defined p e cpu dev_id dev_name dev_size c :
  is_Some (iotrace_trace_desc p e cpu dev_id dev_name dev_size c)
  ↔ is_Some (traces c).
Proof.
  split.
  - intros [[r c'] Hrun]. destruct (traces c) as [T|] eqn:HT; [done |].
    unfold iotrace_trace_desc, per_cpu_trace in Hrun.
    revert Hrun. mred. by rewrite HT.
  - intros [T HT].
    destruct (emit_call_step p (emit_device_desc e cpu dev_id dev_name dev_size)
                c T HT) as (r & c' & _ & Hrun & _).
    cbn [do_emit_call] in Hrun. by rewrite Hrun.
Qed.

Lemma bio_queue_event_defined p k c :
  is_Some (traces c) → ∃ c', bio_queue_event p k c = Some (tt, c').
Proof.
  intros [T HT]. unfold bio_queue_event.
  destruct (pc_bdev_is_added k); [| by eexists].
  rewrite (iotrace_trace_bio_run p (pc_env k) (pc_cpu k) (pc_disk_devt k)
             (pc_bio k) c T HT).
  by eexists.
Qed.

(** X7. From an idle context every sequence of attach, detach and sizing
    calls runs to its end, and in each context it goes through: the probe
    is registered only with the handle table allocated, so that
    [bio_queue_event] returns whatever the I/O; [iotrace_trace_desc]
    reads an allocated table exactly when the client count is positive;
    and an I/O of a queue that is not traced changes nothing. *)
Theorem probe_runs_on_allocated_table p acts c :
  idle c →
  ∃ tr,
    run_api p acts c = Some tr ∧
    Forall (λ rc,
              (probe rc.2 = true →
               ∀ k, ∃ c', bio_queue_event p k rc.2 = Some (tt, c')) ∧
              (∀ e cpu dev_id dev_name dev_size,
                 is_Some (iotrace_trace_desc p e cpu dev_id dev_name dev_size
                            rc.2)
                 ↔ 0 < clients rc.2) ∧
              (∀ k, pc_bdev_is_added k = false →
                    bio_queue_event p k rc.2 = Some (tt, rc.2))) tr.
Proof.
  intros Hidle.
  destruct (run_api_invariant p acts c (λ _, True) (idle_coherent c Hidle) I)
    as (tr & Hrun & Hall); [done |].
  exists tr. split; [done |].
  eapply Forall_impl; [exact Hall |].
  intros [r c'] [[Hpos Hnonpos] _]. cbn [snd] in *.
  split; [| split].
  - intros Hprobe k. apply bio_queue_event_defined.
    destruct (decide (0 < clients c')) as [Hc|Hc]; [by apply Hpos |].
    destruct (Hnonpos ltac:(lia)) as [Hp _]. congruence.
  - intros e cpu dev_id dev_name dev_size. rewrite trace_desc_defined.
    split.
    + intros [T HT]. destruct (decide (0 < clients c')) as [Hc|Hc]; [done |].
      destruct (Hnonpos ltac:(lia)) as [_ Ht]. congruence.
    + intros Hc. by apply Hpos.
  - intros k Hk. unfold bio_queue_event. by rewrite Hk.
Qed.

Lemma probe_runs_on_allocated_table_witness :
  ∃ tr,
    run_api example_platform example_api_calls example_context = Some tr ∧
    map fst tr = [0; 0; 0; - EINVAL; 0; 0; 0] ∧
    Forall (λ rc, probe rc.2 = true →
                  is_Some (bio_queue_event example_platform example_probe_call
                             rc.2)) tr.
Proof.
  destruct (probe_runs_on_allocated_table example_platform example_api_calls
              example_context ltac:(by vm_compute)) as (tr & Hrun & Hall).
  exists tr. split; [done |]. split.
  - vm_compute in Hrun. injection Hrun as <-. reflexivity.
  - eapply Forall_impl; [exact Hall |].
    intros rc (Hprobe & _) Hp. destruct (Hprobe Hp example_probe_call) as [c' ->].
    done.
Defined.

(** X8. Along a run from an idle context the stored size and the rings
    change only in a step taken with no client attached and no handle
    table allocated: the rings that open handles were bound to are never
    replaced under them. *)
Theorem rings_fixed_while_attached p acts c :
  idle c →
  ∃ tr,
    run_api p acts c = Some tr ∧
    Forall (λ cc, clients cc.1 ≠ 0 ∨ is_Some (traces cc.1) →
                  buffer_size cc.2 = buffer_size cc.1 ∧
                  trace_ring cc.2 = trace_ring cc.1) (steps c tr).
Proof.
  intros Hidle.
  apply (run_api_steps p acts c
           (λ c1 c2, clients c1 ≠ 0 ∨ is_Some (traces c1) →
                     buffer_size c2 = buffer_size c1 ∧
                     trace_ring c2 = trace_ring c1));
    [by apply idle_coherent |].
  intros a c1 r c2 [Hpos Hnonpos] Hrun Hbusy.
  destruct a as [k|e size_mb]; cbn [do_api_call] in Hrun.
  - by pose proof (client_call_sized k c1 r c2 Hrun) as [= _ -> ->].
  - assert (clients c1 ≠ 0) as Hc.
    { destruct Hbusy as [Hc|[T HT]]; [done |].
      intros Hz. destruct (Hnonpos ltac:(lia)) as [_ Ht]. congruence. }
    rewrite (init_buffers_busy p e size_mb c1 Hc) in Hrun.
    by injection Hrun as _ <-.
Qed.

Lemma rings_fixed_while_attached_witness :
  ∃ tr,
    run_api example_platform example_api_calls example_context = Some tr ∧
    map (λ rc, buffer_size rc.2) tr
    = [4194304; 4194304; 4194304; 4194304; 4194304; 4194304; 8388608].
Proof.
  destruct (rings_fixed_while_attached example_platform example_api_calls
              example_context ltac:(by vm_compute)) as (tr & Hrun & _).
  exists tr. split; [done |].
  vm_compute in Hrun. injection Hrun as <-. reflexivity.
Defined.

(** ** Allocations and releases of the handle table *)

Lemma table_allocations_app l1 l2 :
  table_allocations (l1 ++ l2)
  = (table_allocations l1 + table_allocations l2)%nat.
Proof. apply count_calls_app. Qed.

Lemma table_releases_app l1 l2 :
  table_releases (l1 ++ l2) = (table_releases l1 + table_releases l2)%nat.
Proof. apply count_calls_app. Qed.

Lemma table_allocations_cons x l :
  table_allocations (x :: l)
  = if is_table_alloc x then S (table_allocations l) else table_allocations l.
Proof. reflexivity. Qed.

Lemma table_releases_cons x l :
  table_releases (x :: l)
  = if is_table_free x then S (table_releases l) else table_releases l.
Proof. reflexivity. Qed.

Lemma table_allocations_open_calls l : table_allocations (open_calls l) = O.
Proof. by apply count_calls_map_none. Qed.

Lemma table_releases_open_calls l : table_releases (open_calls l) = O.
Proof. by apply count_calls_map_none. Qed.

Lemma table_allocations_close_calls l : table_allocations (close_calls l) = O.
Proof. by apply count_calls_map_none. Qed.

Lemma table_releases_close_calls l : table_releases (close_calls l) = O.
Proof. by apply count_calls_map_none. Qed.

Lemma table_allocations_stop_calls e c i :
  table_allocations (stop_calls e c i) = O.
Proof. unfold stop_calls. by destruct (trace_ring c !! i). Qed.

Lemma table_releases_stop_calls e c i : table_releases (stop_calls e c i) = O.
Proof. unfold stop_calls. by destruct (trace_ring c !! i). Qed.

Lemma table_allocations_with_tracers T l c :
  table_allocations (calls (with_tracers T l c))
  = (table_allocations (calls c) + table_allocations l)%nat.
Proof. apply count_calls_app. Qed.

Lemma table_releases_with_tracers T l c :
  table_releases (calls (with_tracers T l c))
  = (table_releases (calls c) + table_releases l)%nat.
Proof. apply count_calls_app. Qed.

Create Rewrite HintDb table_calls.
#[local] Hint Rewrite table_allocations_with_tracers
  table_releases_with_tracers table_allocations_cons table_releases_cons
  table_allocations_app table_releases_app table_allocations_open_calls
  table_releases_open_calls table_allocations_close_calls
  table_releases_close_calls table_allocations_stop_calls
  table_releases_stop_calls : table_calls.

Ltac count_tables :=
  cbn [calls clients set_clients set_probe];
  autorewrite with table_calls;
  cbn [is_table_alloc is_table_free table_allocations table_releases
       count_calls].

Lemma client_call_tables k c r c' :
  coherent c →
  do_client_call k c = Some (r, c') →
  (table_allocations (calls c') + table_releases (calls c) + table_held c
   = table_allocations (calls c) + table_releases (calls c') + table_held c')%nat.
Proof.
  intros [Hpos Hnonpos] Hrun. unfold table_held.
  destruct k as [e|e]; cbn [do_client_call] in Hrun.
  - destruct (decide (clients c = 0)) as [Hc|Hc].
    + destruct (alloc_percpu_ok e) eqn:Ha.
      * destruct (first_stop e c (cpu_online e))
          as [Hall|(pre & i & post & Hcpus & Hpre & Hi)].
        -- destruct (decide (register_result e = 0)) as [Hr|Hr].
           ++ rewrite attach_first in Hrun by done. injection Hrun as <- <-.
              count_tables. cbn. rewrite ?Hc. cbn. lia.
           ++ rewrite attach_register_fails in Hrun by done.
              injection Hrun as <- <-.
              count_tables. cbn. rewrite ?Hc. cbn. lia.
        -- pose proof (stop_result_nonzero e c i Hi) as Hnz.
           erewrite attach_init_fails in Hrun;
             [| done | by eapply init_tracers_rolls_back | done].
           injection Hrun as <- <-.
           count_tables. cbn. rewrite ?Hc. cbn. lia.
      * erewrite attach_init_fails in Hrun;
          [| done | by apply init_tracers_no_table | unfold ENOMEM; lia].
        injection Hrun as <- <-.
        count_tables. cbn. rewrite ?Hc. cbn. lia.
    + rewrite attach_more in Hrun by done. injection Hrun as <- <-.
      cbn [calls clients set_clients].
      destruct (0 <? clients c) eqn:E1; destruct (0 <? clients c + 1) eqn:E2;
        lia.
  - unfold mbind, M_bind in Hrun.
    destruct (decide (clients c = 1)) as [Hc|Hc].
    + destruct (Hpos ltac:(lia)) as [_ [T HT]].
      rewrite (detach_last e c T Hc HT) in Hrun. injection Hrun as <- <-.
      count_tables. cbn. rewrite ?Hc. cbn. lia.
    + rewrite (detach_other e c Hc) in Hrun. injection Hrun as <- <-.
      cbn [calls clients set_clients].
      destruct (0 <? clients c) eqn:E1; destruct (0 <? clients c - 1) eqn:E2;
        lia.
Qed.

Lemma record_call_counts f x :
  f x = false → preserves (λ c, count_calls f (calls c)) (record_call x).
Proof.
  intros Hx c [] c' [= <-]. cbn [calls set_calls].
  rewrite count_calls_app. cbn [count_calls]. rewrite Hx. lia.
Qed.

Lemma init_buffers_calls p e size_mb f :
  (∀ i size r, f (call_iotrace_procfs_trace_file_alloc i size r) = false) →
  preserves (λ c, count_calls f (calls c)) (iotrace_init_buffers p e size_mb).
Proof.
  intros Hf.
  assert (∀ cpus r0,
            preserves (λ c, count_calls f (calls c)) (alloc_each e cpus r0))
    as Heach.
  { induction cpus as [|i rest IH]; intros r0; cbn [alloc_each].
    - apply preserves_ret.
    - unfold iotrace_procfs_trace_file_alloc.
      frame_with ltac:(first [apply IH | apply record_call_counts, Hf]). }
  unfold iotrace_init_buffers, iotrace_set_buffer_size.
  frame_with ltac:(apply Heach).
Qed.

(** X9. Along a run of attach, detach and sizing calls from an idle
    context, every handle table that [alloc_percpu] gave has been released
    by [free_percpu], but for the one held while the client count is
    positive: no table is leaked or released twice, whichever calls fail. *)
Theorem handle_table_balance p acts c :
  idle c →
  ∃ tr,
    run_api p acts c = Some tr ∧
    Forall (λ rc,
              (table_allocations (calls rc.2) + table_releases (calls c)
               = table_allocations (calls c) + table_releases (calls rc.2)
                 + table_held rc.2)%nat) tr.
Proof.
  intros Hidle.
  destruct (run_api_invariant p acts c
              (λ c', (table_allocations (calls c') + table_releases (calls c)
                      = table_allocations (calls c) + table_releases (calls c')
                        + table_held c')%nat)
              (idle_coherent c Hidle)) as (tr & Hrun & Hall).
  - destruct Hidle as (Hc & _). unfold table_held. rewrite Hc. cbn. lia.
  - intros a c1 r c2 Hc1 Hbal Hstep.
    destruct a as [k|e size_mb]; cbn [do_api_call] in Hstep.
    + pose proof (client_call_tables k c1 r c2 Hc1 Hstep). lia.
    + pose proof (init_buffers_calls p e size_mb is_table_alloc
                    ltac:(done) c1 r c2 Hstep) as Ha.
      pose proof (init_buffers_calls p e size_mb is_table_free
                    ltac:(done) c1 r c2 Hstep) as Hf.
      pose proof (init_buffers_attached p e size_mb c1 r c2 Hstep)
        as [= _ Hcl _ _].
      unfold table_allocations, table_releases, table_held in *.
      rewrite Ha, Hf, Hcl. lia.
  - exists tr. split; [done |].
    eapply Forall_impl; [exact Hall |]. by intros rc [_ H].
Qed.

Lemma handle_table_balance_witness :
  ∃ tr,
    run_api example_platform
      [api_client (attach_client example_env_open_fails);
       api_client (attach_client example_env_unregistered);
       api_client (attach_client example_env);
       api_client (detach_client example_env)] example_context = Some tr ∧
    map (λ rc, (table_allocations (calls rc.2), table_releases (calls rc.2),
                table_held rc.2)) tr
    = [(1, 1, 0); (2, 2, 0); (3, 2, 1); (3, 3, 0)]%nat.
Proof.
  destruct (handle_table_balance example_platform
              [api_client (attach_client example_env_open_fails);
               api_client (attach_client example_env_unregistered);
               api_client (attach_client example_env);
               api_client (detach_client example_env)] example_context
              ltac:(by vm_compute)) as (tr & Hrun & _).
  exists tr. split; [done |].
  vm_compute in Hrun. injection Hrun as <-. reflexivity.
Defined.

(** ** The outcome of sizing *)

Lemma first_failure {A} (P : A → Prop) `{∀ x, Decision (P x)} (l : list A) :
  Forall P l ∨
  ∃ pre i post, l = pre ++ i :: post ∧ Forall P pre ∧ ¬ P i.
Proof.
  induction l as [|j rest IH]; [by left |].
  destruct (decide (P j)) as [Hj|Hj].
  - destruct IH as [Hall|(pre & i & post & -> & Hpre & Hi)].
    + left. by constructor.
    + right. exists (j :: pre), i, post. repeat split; [by constructor | done].
  - right. by exists [], j, rest.
Qed.

Lemma alloc_each_all_ok e cpus c :
  Forall (allocs_ok e) cpus →
  ∃ c',
    alloc_each e cpus 0 c = Some (0, c') ∧
    calls c' = calls c ++ file_alloc_calls e (buffer_size c) cpus ∧
    buffer_size c' = buffer_size c.
Proof.
  revert c. induction cpus as [|i rest IH]; intros c Hall.
  - exists c. cbn. by rewrite app_nil_r.
  - apply Forall_cons in Hall as [Hi Hrest]. unfold allocs_ok in Hi.
    cbn [alloc_each]. unfold iotrace_procfs_trace_file_alloc. mred.
    rewrite Hi. cbn [Z.eqb negb].
    edestruct IH as (c' & Hrun & Hcalls & Hsize); [exact Hrest |].
    exists c'. split; [exact Hrun |].
    rewrite Hcalls, Hsize. cbn [calls buffer_size set_trace_ring set_calls].
    split; [| done]. cbn [file_alloc_calls map]. rewrite Hi. by_assoc.
Qed.

Lemma alloc_each_stops e pre i post c :
  Forall (allocs_ok e) pre →
  ¬ allocs_ok e i →
  ∃ c',
    alloc_each e (pre ++ i :: post) 0 c = Some (trace_file_alloc_result e i, c') ∧
    calls c' = calls c ++ file_alloc_calls e (buffer_size c) (pre ++ [i]) ∧
    buffer_size c' = buffer_size c.
Proof.
  intros Hpre Hi. unfold allocs_ok in Hi. revert c.
  induction pre as [|j pre IH]; intros c.
  - cbn [app alloc_each]. unfold iotrace_procfs_trace_file_alloc. mred.
    destruct (trace_file_alloc_result e i =? 0) eqn:E; [lia |].
    mred. rewrite ?E. cbn [negb]. eexists. split; [reflexivity |]. by cbn.
  - apply Forall_cons in Hpre as [Hj Hpre]. unfold allocs_ok in Hj.
    cbn [app alloc_each]. unfold iotrace_procfs_trace_file_alloc. mred.
    rewrite Hj. cbn [Z.eqb negb].
    edestruct (IH Hpre) as (c' & Hrun & Hcalls & Hsize).
    exists c'. split; [exact Hrun |].
    rewrite Hcalls, Hsize. cbn [calls buffer_size set_trace_ring set_calls].
    split; [| done]. cbn [file_alloc_calls map app]. rewrite Hj. by_assoc.
Qed.

Lemma init_buffers_refused p e size_mb c :
  clients c = 0 →
  iotrace_procfs_max_buffer_size_mb p < size_mb ∨ per_cpu_bytes e size_mb = 0 →
  iotrace_init_buffers p e size_mb c = Some (- EINVAL, c).
Proof.
  intros Hc Hbad. unfold iotrace_init_buffers, iotrace_set_buffer_size. mred.
  rewrite Hc. cbn [Z.eqb negb]. fold (per_cpu_bytes e size_mb).
  assert ((iotrace_procfs_max_buffer_size_mb p <? size_mb)
          || (per_cpu_bytes e size_mb =? 0) = true) as ->; [| done].
  apply orb_true_iff. destruct Hbad as [Hmax|Hzero]; [left | right]; lia.
Qed.

Lemma init_buffers_sized p e size_mb c :
  clients c = 0 →
  size_mb ≤ iotrace_procfs_max_buffer_size_mb p →
  per_cpu_bytes e size_mb ≠ 0 →
  iotrace_init_buffers p e size_mb c
  = alloc_each e (cpu_online e) 0 (set_buffer_size (per_cpu_bytes e size_mb) c).
Proof.
  intros Hc Hmax Hshare.
  unfold iotrace_init_buffers, iotrace_set_buffer_size. mred.
  rewrite Hc. cbn [Z.eqb negb]. fold (per_cpu_bytes e size_mb).
  assert ((iotrace_procfs_max_buffer_size_mb p <? size_mb)
          || (per_cpu_bytes e size_mb =? 0) = false) as ->; [| done].
  apply orb_false_iff. split; lia.
Qed.

(** X10. [iotrace_init_buffers] always returns. It returns 0 exactly when
    no client is counted, the request is not above the ceiling, the size
    for one processor is not zero and the trace file of every online
    processor is allocated. Once the request has passed the checks the
    size for one processor is stored, also when an allocation then fails
    and the call returns an error. *)
Theorem init_buffers_outcome p e size_mb c :
  ∃ r c',
    iotrace_init_buffers p e size_mb c = Some (r, c') ∧
    (r = 0 ↔
     clients c = 0 ∧
     size_mb ≤ iotrace_procfs_max_buffer_size_mb p ∧
     per_cpu_bytes e size_mb ≠ 0 ∧
     Forall (allocs_ok e) (cpu_online e)) ∧
    buffer_size c'
    = (if decide (clients c = 0 ∧
                  size_mb ≤ iotrace_procfs_max_buffer_size_mb p ∧
                  per_cpu_bytes e size_mb ≠ 0)
       then per_cpu_bytes e size_mb else buffer_size c).
Proof.
  destruct (decide (clients c = 0)) as [Hc|Hc].
  - destruct (decide (size_mb ≤ iotrace_procfs_max_buffer_size_mb p))
      as [Hmax|Hmax].
    + destruct (decide (per_cpu_bytes e size_mb = 0)) as [Hzero|Hshare].
      * exists (- EINVAL), c. split; [apply init_buffers_refused; auto |].
        split; [unfold EINVAL; split; [lia | tauto] |].
        rewrite decide_False; tauto.
      * rewrite init_buffers_sized by done.
        rewrite decide_True by done.
        destruct (first_failure (allocs_ok e) (cpu_online e))
          as [Hall|(pre & i & post & Hcpus & Hpre & Hi)].
        -- destruct (alloc_each_all_ok e (cpu_online e)
                       (set_buffer_size (per_cpu_bytes e size_mb) c) Hall)
             as (c' & Hrun & _ & Hsize).
           exists 0, c'. split; [done |]. split; [tauto | done].
        -- rewrite Hcpus.
           destruct (alloc_each_stops e pre i post
                       (set_buffer_size (per_cpu_bytes e size_mb) c) Hpre Hi)
             as (c' & Hrun & _ & Hsize).
           exists (trace_file_alloc_result e i), c'.
           split; [done |]. split; [| done].
           split; [by intros Hr |].
           intros (_ & _ & _ & Hall). rewrite Forall_app, Forall_cons in Hall.
           tauto.
    + exists (- EINVAL), c.
      split; [apply init_buffers_refused; [done | left; lia] |].
      split; [unfold EINVAL; split; [lia | tauto] |].
      rewrite decide_False; tauto.
  - exists (- EINVAL), c. split; [by apply init_buffers_busy |].
    split; [unfold EINVAL; split; [lia | tauto] |].
    rewrite decide_False; tauto.
Qed.

(** X11. When the request has passed the checks and the trace file of an
    online processor cannot be allocated, [iotrace_init_buffers] returns the
    error of the first such processor, having asked for the files of the
    processors before it and of no processor after it; nothing is undone:
    the new size stays stored. The client count, the probe and the handle
    table are as before. *)
Theorem init_buffers_stops_at_first_failure p e size_mb c pre i post :
  clients c = 0 →
  size_mb ≤ iotrace_procfs_max_buffer_size_mb p →
  per_cpu_bytes e size_mb ≠ 0 →
  cpu_online e = pre ++ i :: post →
  Forall (allocs_ok e) pre →
  ¬ allocs_ok e i →
  ∃ c',
    iotrace_init_buffers p e size_mb c
    = Some (trace_file_alloc_result e i, c') ∧
    trace_file_alloc_result e i ≠ 0 ∧
    buffer_size c' = per_cpu_bytes e size_mb ∧
    calls c'
    = calls c ++ file_alloc_calls e (per_cpu_bytes e size_mb) (pre ++ [i]) ∧
    attached c' = attached c.
Proof.
  intros Hc Hmax Hshare Hcpus Hpre Hi.
  destruct (alloc_each_stops e pre i post
              (set_buffer_size (per_cpu_bytes e size_mb) c) Hpre Hi)
    as (c' & Hrun & Hcalls & Hsize).
  assert (iotrace_init_buffers p e size_mb c
          = Some (trace_file_alloc_result e i, c')) as Hinit.
  { rewrite init_buffers_sized by done. by rewrite Hcpus. }
  exists c'. split; [done |]. split; [done |].
  split; [done |]. split; [done |].
  pose proof (init_buffers_attached p e size_mb c _ c' Hinit)
    as [= _ Hcl Hp Ht].
  unfold attached. by rewrite Hcl, Hp, Ht.
Qed.

Lemma init_buffers_stops_at_first_failure_witness :
  ∃ c',
    iotrace_init_buffers example_platform example_env_no_memory 16
      example_context = Some (- ENOMEM, c') ∧
    buffer_size c' = 4194304 ∧
    calls c'
    = [call_iotrace_procfs_trace_file_alloc 0 4194304 0;
       call_iotrace_procfs_trace_file_alloc 1 4194304 0;
       call_iotrace_procfs_trace_file_alloc 2 4194304 (- ENOMEM)].
Proof.
  destruct (init_buffers_stops_at_first_failure example_platform
              example_env_no_memory 16 example_context [0; 1]%nat 2%nat
              [3%nat])
    as (c' & Hrun & _ & Hsize & Hcalls & _);
    [reflexivity | by vm_compute | by vm_compute | reflexivity | by_decide
    | by vm_compute |].
  exists c'. split; [exact Hrun |]. split; [exact Hsize |]. exact Hcalls.
Defined.

Lemma per_cpu_bytes_fits e size_mb :
  0 ≤ size_mb < 2 ^ 44 →
  per_cpu_bytes e size_mb = size_mb * 2 ^ 20 / num_online_cpus e.
Proof.
  intros H. unfold per_cpu_bytes. rewrite u64_mebibytes.
  unfold u64. rewrite Z.mod_small; [done | lia].
Qed.

(** X12. When [iotrace_init_buffers] has succeeded for [X] MiB, the
    ceiling being below [2^44] MiB, on no more than [2^20] online
    processors, [iotrace_get_buffer_size] on as many processors returns
    [X] or [X - 1], and [X] exactly when the number of processors divides
    the requested size in bytes. *)
Theorem buffer_size_read_back p e e' X c c' :
  0 ≤ X →
  iotrace_procfs_max_buffer_size_mb p < 2 ^ 44 →
  num_online_cpus e ≤ 2 ^ 20 →
  num_online_cpus e' = num_online_cpus e →
  iotrace_init_buffers p e X c = Some (0, c') →
  ∃ g,
    iotrace_get_buffer_size e' c' = Some (g, c') ∧
    X - 1 ≤ g ≤ X ∧
    (g = X ↔ (X * 2 ^ 20) mod num_online_cpus e = 0).
Proof.
  intros HX Hceiling HP HP' Hrun.
  pose proof (num_online_cpus_pos e) as Hpos.
  destruct (decide (clients c = 0)) as [Hc|Hc];
    [| rewrite init_buffers_busy in Hrun by done; by injection Hrun].
  destruct (decide (X ≤ iotrace_procfs_max_buffer_size_mb p))
    as [Hmax|Hmax];
    [| rewrite init_buffers_refused in Hrun by (done || left; lia);
       by injection Hrun].
  destruct (decide (per_cpu_bytes e X = 0)) as [Hzero|Hshare];
    [rewrite init_buffers_refused in Hrun by (done || by right);
     by injection Hrun |].
  rewrite init_buffers_sized in Hrun by done.
  apply alloc_each_buffer_size in Hrun as [Hsize _].
  cbn [buffer_size set_buffer_size] in Hsize.
  rewrite per_cpu_bytes_fits in Hsize by lia.
  set (P := num_online_cpus e) in *. set (N := X * 2 ^ 20) in *.
  pose proof (Z.div_mod N P ltac:(lia)) as Hdiv.
  pose proof (Z.mod_pos_bound N P Hpos) as Hrem.
  assert (u64 (buffer_size c' * P) = N - N mod P) as Hprod.
  { assert (N / P * P = N - N mod P) as Hquot by lia.
    pose proof (Z.mod_le N P ltac:(lia) Hpos) as Hle.
    rewrite Hsize, Hquot. unfold u64. apply Z.mod_small. lia. }
  exists ((N - N mod P) / 2 ^ 20).
  split.
  { unfold iotrace_get_buffer_size, gets. rewrite HP'. fold P.
    rewrite Hprod, Z.div_div by lia. done. }
  destruct (decide (N mod P = 0)) as [Hr|Hr].
  - rewrite Hr, Z.sub_0_r. subst N. rewrite Z.div_mul by lia.
    split; [lia | done].
  - assert ((N - N mod P) / 2 ^ 20 = X - 1) as ->.
    { symmetry. apply (Z.div_unique_pos _ _ _ (2 ^ 20 - N mod P)); subst N; lia. }
    split; [lia |]. split; [lia | done].
Qed.

Lemma buffer_size_read_back_witness :
  ∃ c' g,
    iotrace_init_buffers example_platform example_env_seven 100
      example_context = Some (0, c') ∧
    iotrace_get_buffer_size example_env_seven c' = Some (g, c') ∧
    g = 99.
Proof.
  destruct (iotrace_init_buffers example_platform example_env_seven 100
              example_context) as [[r c']|] eqn:Hrun;
    [| by vm_compute in Hrun].
  assert (r = 0) as -> by (vm_compute in Hrun; by injection Hrun as <- _).
  destruct (buffer_size_read_back example_platform example_env_seven
              example_env_seven 100 example_context c')
    as (g & Hget & Hbounds & Hexact);
    [lia | by vm_compute | by vm_compute | reflexivity | exact Hrun |].
  exists c', g. split; [done |]. split; [done |].
  destruct (decide (g = 100)) as [Hg|Hg]; [| lia].
  apply Hexact in Hg. by vm_compute in Hg.
Defined.

(** X13. [iotrace_set_buffer_size] computes the size in bytes in 64 bits:
    two requests that are both under the ceiling, or both above it, and
    equal modulo [2^44] MiB are answered alike and store the same size.
    Under a ceiling of [2^44] MiB or more a request of [2^44 + X] MiB is
    sized as one of [X] MiB. *)
Theorem set_buffer_size_wraps p e X Y c :
  X mod 2 ^ 44 = Y mod 2 ^ 44 →
  (X ≤ iotrace_procfs_max_buffer_size_mb p
   ↔ Y ≤ iotrace_procfs_max_buffer_size_mb p) →
  iotrace_set_buffer_size p e X c = iotrace_set_buffer_size p e Y c ∧
  iotrace_init_buffers p e X c = iotrace_init_buffers p e Y c.
Proof.
  intros Hmod Hmax.
  assert (u64 (X * 2 ^ 20) = u64 (Y * 2 ^ 20)) as Hbytes.
  { unfold u64. change (2 ^ 64) with (2 ^ 44 * 2 ^ 20).
    rewrite !Z.mul_mod_distr_r by lia. by rewrite Hmod. }
  assert (iotrace_set_buffer_size p e X = iotrace_set_buffer_size p e Y)
    as Hset.
  { unfold iotrace_set_buffer_size. rewrite !u64_mebibytes, Hbytes.
    assert ((iotrace_procfs_max_buffer_size_mb p <? X)
            = (iotrace_procfs_max_buffer_size_mb p <? Y)) as ->; [| done].
    destruct (Z.ltb_spec (iotrace_procfs_max_buffer_size_mb p) X);
      destruct (Z.ltb_spec (iotrace_procfs_max_buffer_size_mb p) Y);
      try done; lia. }
  split; [by rewrite Hset |].
  unfold iotrace_init_buffers. by rewrite Hset.
Qed.

Lemma set_buffer_size_wraps_witness :
  iotrace_init_buffers example_platform_wide example_env (2 ^ 44 + 16)
    example_context
  = iotrace_init_buffers example_platform_wide example_env 16 example_context
  ∧ (∃ c', iotrace_init_buffers example_platform_wide example_env
             (2 ^ 44 + 16) example_context = Some (0, c') ∧
           buffer_size c' = 4194304).
Proof.
  destruct (set_buffer_size_wraps example_platform_wide example_env
              (2 ^ 44 + 16) 16 example_context) as [_ Hinit];
    [reflexivity | by vm_compute |].
  split; [exact Hinit |].
  rewrite Hinit. eexists. split; reflexivity.
Defined.

(** ** Reading an event back *)

(** X14. When the two flag bits of the event format are not zero and have
    no bit in common, the flags of the event that [iotrace_trace_bio]
    builds tell for each of flush and force-unit-access whether the bio had
    it: the flush bit is set in the event exactly when the flush flag of
    the bio is, and the same for force unit access. *)
Theorem event_flags_decode p e sid dev_id b :
  iotrace_event_flag_flush p ≠ 0 →
  iotrace_event_flag_fua p ≠ 0 →
  Z.land (iotrace_event_flag_flush p) (iotrace_event_flag_fua p) = 0 →
  let ev := bio_event p e sid dev_id b in
  (Z.land (ev_flags ev) (iotrace_event_flag_flush p) ≠ 0
   ↔ Z.land (bi_rw b) (REQ_FLUSH p) ≠ 0) ∧
  (Z.land (ev_flags ev) (iotrace_event_flag_fua p) ≠ 0
   ↔ Z.land (bi_rw b) (REQ_FUA p) ≠ 0).
Proof.
  intros Hflush Hfua Hdisjoint ev. subst ev.
  assert (Z.land (iotrace_event_flag_fua p) (iotrace_event_flag_flush p) = 0)
    as Hdisjoint' by (by rewrite Z.land_comm).
  unfold bio_event. cbn [ev_flags].
  unfold c_true, IOTRACE_BIO_IS_FLUSH, IOTRACE_BIO_IS_FUA,
    IOTRACE_BIO_OP_FLAGS.
  destruct (Z.eqb_spec (Z.land (bi_rw b) (REQ_FLUSH p)) 0) as [Hf|Hf];
    destruct (Z.eqb_spec (Z.land (bi_rw b) (REQ_FUA p)) 0) as [Hu|Hu];
    cbn [negb];
    rewrite ?Z.lor_0_l, ?Z.land_lor_distr_l, ?Z.land_diag, ?Z.land_0_l,
      ?Hdisjoint, ?Hdisjoint', ?Z.lor_0_l, ?Z.lor_0_r;
    split; split; intros H; congruence.
Qed.

Lemma event_flags_decode_witness :
  Z.land (ev_flags (bio_event example_platform example_env 42 7
                      example_bio_write_flush)) 1 ≠ 0 ∧
  Z.land (ev_flags (bio_event example_platform example_env 42 7
                      example_bio_write_flush)) 2 = 0.
Proof.
  destruct (event_flags_decode example_platform example_env 42 7
              example_bio_write_flush) as [Hflush Hfua];
    [by vm_compute | by vm_compute | reflexivity |].
  split.
  - apply Hflush. by vm_compute.
  - destruct (decide (Z.land (ev_flags (bio_event example_platform example_env
                                          42 7 example_bio_write_flush)) 2 = 0))
      as [Hz|Hnz]; [exact Hz |].
    apply Hfua in Hnz. by vm_compute in Hnz.
Defined.

(** ** The version buffer *)

Lemma length_list_ascii_of_string s :
  length (String.list_ascii_of_string s) = String.length s.
Proof. induction s as [|a s IH]; [done |]. cbn. by rewrite IH. Qed.

Lemma list_ascii_of_string_inj s1 s2 :
  String.list_ascii_of_string s1 = String.list_ascii_of_string s2 → s1 = s2.
Proof.
  intros H. rewrite <- (String.string_of_list_ascii_of_string s1),
    <- (String.string_of_list_ascii_of_string s2). by rewrite H.
Qed.

Lemma pretty_N_go_length (k : nat) x s :
  (x < 10 ^ N.of_nat k)%N →
  (String.length (pretty_N_go x s) ≤ k + String.length s)%nat.
Proof.
  revert x s. induction k as [|k IH]; intros x s Hx.
  - assert (x = 0%N) as -> by (cbn in Hx; lia). rewrite pretty_N_go_0. lia.
  - destruct (decide (x = 0%N)) as [->|Hpos].
    + rewrite pretty_N_go_0. lia.
    + rewrite pretty_N_go_step by lia.
      etrans; [apply IH |].
      * apply N.Div0.div_lt_upper_bound.
        rewrite Nat2N.inj_succ, N.pow_succ_r' in Hx. lia.
      * cbn [String.length]. lia.
Qed.

Lemma pretty_N_length (k : nat) x :
  (x < 10 ^ N.of_nat (S k))%N → (String.length (pretty x) ≤ S k)%nat.
Proof.
  intros Hx. unfold pretty, pretty_N. case_decide; [cbn; lia |].
  etrans; [by apply (pretty_N_go_length (S k)) |]. cbn. lia.
Qed.

Lemma format_d_length z :
  - 2 ^ 31 ≤ z < 2 ^ 31 → (length (format_d z) ≤ 11)%nat.
Proof.
  intros Hz. unfold format_d. rewrite length_list_ascii_of_string.
  destruct z as [|x|x]; unfold pretty, pretty_Z.
  - cbn. lia.
  - etrans; [apply (pretty_N_length 9) |]; lia.
  - cbn [String.append String.length].
    apply le_n_S. etrans; [apply (pretty_N_length 9) |]; lia.
Qed.

Lemma pretty_N_char_printable d : printable (pretty_N_char d).
Proof. unfold pretty_N_char. by repeat case_match. Qed.

Lemma pretty_N_go_printable x s :
  Forall printable (String.list_ascii_of_string s) →
  Forall printable (String.list_ascii_of_string (pretty_N_go x s)).
Proof.
  revert s. induction (N.lt_wf_0 x) as [x _ IH]; intros s Hs.
  destruct (decide (x = 0%N)) as [->|Hpos]; [by rewrite pretty_N_go_0 |].
  rewrite pretty_N_go_step by lia. apply IH.
  - apply N.div_lt; lia.
  - cbn. constructor; [apply pretty_N_char_printable | done].
Qed.

Lemma pretty_N_printable (x : N) :
  Forall printable (String.list_ascii_of_string (pretty x)).
Proof.
  unfold pretty, pretty_N. case_decide.
  - by repeat constructor.
  - apply pretty_N_go_printable. constructor.
Qed.

Lemma format_d_printable z : Forall printable (format_d z).
Proof.
  unfold format_d. destruct z as [|x|x]; unfold pretty, pretty_Z.
  - by repeat constructor.
  - apply pretty_N_printable.
  - cbn. constructor; [done | apply pretty_N_printable].
Qed.

Lemma hex_digit_printable d : printable (hex_digit d).
Proof. unfold hex_digit. by repeat case_match. Qed.

Lemma hex_digit_inj d1 d2 :
  0 ≤ d1 < 16 → 0 ≤ d2 < 16 → hex_digit d1 = hex_digit d2 → d1 = d2.
Proof.
  intros H1 H2.
  assert (∀ d, 0 ≤ d < 16 →
               d = 0 ∨ d = 1 ∨ d = 2 ∨ d = 3 ∨ d = 4 ∨ d = 5 ∨ d = 6 ∨ d = 7 ∨
               d = 8 ∨ d = 9 ∨ d = 10 ∨ d = 11 ∨ d = 12 ∨ d = 13 ∨ d = 14 ∨
               d = 15) as Hcases by lia.
  destruct (Hcases d1 H1) as [?|[?|[?|[?|[?|[?|[?|[?|[?|[?|[?|[?|[?|[?|[?|?]]]]]]]]]]]]]]];
    destruct (Hcases d2 H2) as [?|[?|[?|[?|[?|[?|[?|[?|[?|[?|[?|[?|[?|[?|[?|?]]]]]]]]]]]]]]];
    subst; cbn; intros Heq; first [reflexivity | discriminate Heq].
Qed.

Lemma hex_digits_length n z : length (hex_digits n z) = n.
Proof.
  revert z. induction n as [|n IH]; intros z; [done |].
  cbn [hex_digits]. rewrite length_app, IH. cbn. lia.
Qed.

Lemma hex_digits_printable n z : Forall printable (hex_digits n z).
Proof.
  revert z. induction n as [|n IH]; intros z; [constructor |].
  cbn [hex_digits]. apply Forall_app. split; [apply IH |].
  constructor; [apply hex_digit_printable | constructor].
Qed.

Lemma hex_digits_inj n z1 z2 :
  0 ≤ z1 < 16 ^ Z.of_nat n → 0 ≤ z2 < 16 ^ Z.of_nat n →
  hex_digits n z1 = hex_digits n z2 → z1 = z2.
Proof.
  revert z1 z2. induction n as [|n IH]; intros z1 z2 H1 H2 Heq.
  - cbn in H1, H2. lia.
  - cbn [hex_digits] in Heq. apply app_inj_tail in Heq as [Hhigh Hlow].
    rewrite Nat2Z.inj_succ, Z.pow_succ_r in H1, H2 by lia.
    apply hex_digit_inj in Hlow; [| by apply Z.mod_pos_bound..].
    apply IH in Hhigh;
      [| split; [apply Z.div_pos | apply Z.div_lt_upper_bound]; lia..].
    rewrite (Z.div_mod z1 16), (Z.div_mod z2 16) by lia. lia.
Qed.

Lemma c_string_terminated l rest :
  Forall (λ a, a ≠ NUL) l → c_string (l ++ NUL :: rest) = l.
Proof.
  induction 1 as [|a l Ha _ IH]; cbn [app c_string].
  - by rewrite decide_True.
  - by rewrite decide_False, IH.
Qed.

Lemma split_at_newline l1 r1 l2 r2 :
  Forall printable l1 → Forall printable l2 →
  l1 ++ newline :: r1 = l2 ++ newline :: r2 →
  l1 = l2 ∧ r1 = r2.
Proof.
  intros H1. revert l2. induction H1 as [|a l1 [_ Ha] _ IH]; intros l2 H2 Heq.
  - destruct H2 as [|b l2 [_ Hb] _]; cbn in Heq.
    + by injection Heq as <-.
    + injection Heq as Hab _. congruence.
  - destruct H2 as [|b l2 [_ Hb] H2]; cbn in Heq.
    + injection Heq as Hab _. congruence.
    + injection Heq as <- Heq. destruct (IH l2 H2 Heq) as [<- <-]. done.
Qed.

Lemma version_text_no_terminator v : Forall (λ a, a ≠ NUL) (version_text v).
Proof.
  assert (∀ l, Forall printable l → Forall (λ a, a ≠ NUL) l) as Hp.
  { intros l Hl. eapply Forall_impl; [exact Hl |]. by intros a [Ha _]. }
  assert (Forall (λ a, a ≠ NUL) [newline]) as Hnl by (by repeat constructor).
  unfold version_text, format_016llX. rewrite !Forall_app.
  repeat split; auto using format_d_printable, hex_digits_printable.
Qed.

Lemma version_text_length v :
  - 2 ^ 31 ≤ IOTRACE_EVENT_VERSION_MAJOR v < 2 ^ 31 →
  - 2 ^ 31 ≤ IOTRACE_EVENT_VERSION_MINOR v < 2 ^ 31 →
  (19 ≤ length (version_text v) ≤ 41)%nat.
Proof.
  intros Hmajor Hminor. unfold version_text, format_016llX.
  rewrite !length_app, hex_digits_length. cbn [length].
  pose proof (format_d_length _ Hmajor). pose proof (format_d_length _ Hminor).
  lia.
Qed.

Lemma snprintf_length buf size text :
  (size ≤ length buf)%nat → length (snprintf buf size text).1 = length buf.
Proof.
  intros Hsize. unfold snprintf. cbn [fst]. destruct size as [|n]; [done |].
  rewrite !length_app, length_drop, length_take. cbn [length]. lia.
Qed.

Lemma snprintf_fits n text :
  (length text < n)%nat →
  (snprintf (replicate n NUL) n text).1
  = text ++ replicate (n - length text) NUL.
Proof.
  intros Hfit. unfold snprintf. cbn [fst]. destruct n as [|n]; [lia |].
  rewrite take_ge by lia. rewrite drop_replicate.
  replace (S n - length text)%nat with (S (n - length text)) by lia.
  reflexivity.
Qed.

(** X15. With memory for the buffer, [iotrace_trace_init] returns 0 and
    leaves a buffer of 64 bytes that holds the whole text of the two
    version numbers and the magic number, whatever [int] values the
    version numbers have: the text has at most 41 characters, nothing of
    it is cut off, it is followed by zero bytes up to the end of the
    buffer, and a reader of the buffer as a string finds the text. *)
Theorem version_text_fits v c :
  - 2 ^ 31 ≤ IOTRACE_EVENT_VERSION_MAJOR v < 2 ^ 31 →
  - 2 ^ 31 ≤ IOTRACE_EVENT_VERSION_MINOR v < 2 ^ 31 →
  ∃ buff,
    iotrace_trace_init v true c
    = (0, {| version_buff := Some buff;
             version_buff_size := VERSION_BUFFER_MAX_LEN;
             version_calls :=
               version_calls c ++ [call_vzalloc VERSION_BUFFER_MAX_LEN true] |}) ∧
    (length (version_text v) ≤ 41)%nat ∧
    buff = version_text v ++ replicate (64 - length (version_text v)) NUL ∧
    length buff = 64%nat ∧
    c_string buff = version_text v.
Proof.
  intros Hmajor Hminor.
  pose proof (version_text_length v Hmajor Hminor) as [_ Hlen].
  exists (version_text v ++ replicate (64 - length (version_text v)) NUL).
  split; [| split; [done | split; [done | split]]].
  - unfold iotrace_trace_init, vzalloc.
    change (Z.to_nat VERSION_BUFFER_MAX_LEN) with 64%nat.
    pose proof (snprintf_fits 64 (version_text v) ltac:(lia)) as Hfit.
    destruct (snprintf (replicate 64 NUL) 64 (version_text v)) as [buff result].
    cbn [fst] in Hfit. by rewrite Hfit.
  - rewrite length_app, length_replicate. lia.
  - replace (64 - length (version_text v))%nat
      with (S (63 - length (version_text v))) by lia.
    cbn [replicate]. apply c_string_terminated, version_text_no_terminator.
Qed.

Lemma version_text_fits_witness :
  ∃ buff,
    (iotrace_trace_init example_version true version_context_empty).2
    = {| version_buff := Some buff; version_buff_size := 64;
         version_calls := [call_vzalloc 64 true] |} ∧
    c_string buff
    = String.list_ascii_of_string "3" ++ [newline]
      ++ String.list_ascii_of_string "14" ++ [newline]
      ++ String.list_ascii_of_string "00005A5BE633DC39" ++ [newline].
Proof.
  destruct (version_text_fits example_version version_context_empty)
    as (buff & Hrun & _ & _ & _ & Htext); [by vm_compute | by vm_compute |].
  exists buff. split; [by rewrite Hrun |].
  rewrite Htext. reflexivity.
Defined.

(** X16. The text that the format prints tells the version: two versions
    print the same text exactly when they have the same major and minor
    numbers and the same magic number in 64 bits. *)
Theorem version_text_identifies v1 v2 :
  version_text v1 = version_text v2
  ↔ IOTRACE_EVENT_VERSION_MAJOR v1 = IOTRACE_EVENT_VERSION_MAJOR v2 ∧
    IOTRACE_EVENT_VERSION_MINOR v1 = IOTRACE_EVENT_VERSION_MINOR v2 ∧
    u64 (IOTRACE_MAGIC v1) = u64 (IOTRACE_MAGIC v2).
Proof.
  assert (∀ z1 z2, format_d z1 = format_d z2 → z1 = z2) as Hd.
  { intros z1 z2 Heq. apply list_ascii_of_string_inj in Heq.
    by apply (inj pretty). }
  unfold version_text, format_016llX. split.
  - intros Heq. cbn [app] in Heq.
    apply split_at_newline in Heq as [Hmajor Heq];
      [| apply format_d_printable..].
    apply split_at_newline in Heq as [Hminor Heq];
      [| apply format_d_printable..].
    apply app_inj_tail in Heq as [Hmagic _].
    split; [by apply Hd |]. split; [by apply Hd |].
    apply (hex_digits_inj 16); [| | done];
      unfold u64; change (16 ^ Z.of_nat 16) with (2 ^ 64);
      apply Z.mod_pos_bound; lia.
  - intros (-> & -> & ->). done.
Qed.

Lemma trace_init_invariant v ok c :
  version_invariant c → version_invariant (iotrace_trace_init v ok c).2.
Proof.
  intros [_ Hcount]. unfold iotrace_trace_init, vzalloc.
  change (Z.to_nat VERSION_BUFFER_MAX_LEN) with 64%nat.
  destruct ok.
  - pose proof (snprintf_length (replicate 64 NUL) 64 (version_text v)) as Hlen.
    destruct (snprintf (replicate 64 NUL) 64 (version_text v)) as [buff result].
    cbn [fst snd] in *. rewrite length_replicate in Hlen.
    split; cbn [version_buff version_buff_size].
    + split; [done |]. rewrite Hlen by lia. done.
    + unfold buffers_released, buffers_given, buffers_held in *.
      cbn [version_calls version_buff]. rewrite !filter_app, !length_app.
      cbn. repeat case_decide; try tauto. cbn [length].
      destruct (version_buff c); lia.
  - cbn [snd]. split; cbn [version_buff version_buff_size]; [done |].
    unfold buffers_released, buffers_given, buffers_held in *.
    cbn [version_calls version_buff]. rewrite !filter_app, !length_app.
    cbn. repeat case_decide; try tauto. cbn [length].
    destruct (version_buff c); lia.
Qed.

Lemma trace_deinit_invariant c :
  version_invariant c → version_invariant (iotrace_trace_deinit c).
Proof.
  intros Hinv. unfold iotrace_trace_deinit.
  destruct (version_buff c) as [buff|] eqn:Hbuff; [| done].
  destruct Hinv as [_ Hcount]. split; [done |].
  unfold buffers_released, buffers_given, buffers_held in *.
  rewrite Hbuff in Hcount.
  cbn [version_calls version_buff]. rewrite !filter_app, !length_app.
  cbn. repeat case_decide; try tauto. cbn [length]. lia.
Qed.

Lemma run_version_ops_invariant ops c :
  version_invariant c → version_invariant (run_version_ops ops c).
Proof.
  revert c. induction ops as [|o ops IH]; intros c Hinv; [done |].
  cbn [run_version_ops foldl]. apply IH.
  destruct o as [v ok|]; cbn [do_version_op].
  - by apply trace_init_invariant.
  - by apply trace_deinit_invariant.
Qed.

(** X17. After any sequence of [iotrace_trace_init] and
    [iotrace_trace_deinit] calls, with memory or without, the size is 64
    with a buffer of 64 bytes and 0 without a buffer, and [vfree] was
    called on no more buffers than [vzalloc] gave, the one held not among
    them. [iotrace_trace_deinit] leaves no buffer and the size 0, and a
    second call of it changes nothing. [iotrace_trace_init] without memory
    returns [-ENOMEM] and leaves no buffer and the size 0, and
    [iotrace_trace_deinit] after it calls nothing. *)
Theorem version_buffer_lifecycle ops v :
  let c := run_version_ops ops version_context_empty in
  version_invariant c ∧
  version_buff (iotrace_trace_deinit c) = None ∧
  version_buff_size (iotrace_trace_deinit c) = 0 ∧
  iotrace_trace_deinit (iotrace_trace_deinit c) = iotrace_trace_deinit c ∧
  (iotrace_trace_init v false c).1 = - ENOMEM ∧
  version_buff (iotrace_trace_init v false c).2 = None ∧
  version_buff_size (iotrace_trace_init v false c).2 = 0 ∧
  iotrace_trace_deinit (iotrace_trace_init v false c).2
  = (iotrace_trace_init v false c).2.
Proof.
  intros c.
  assert (version_invariant c) as Hinv.
  { apply run_version_ops_invariant. split; [done | cbn; lia]. }
  split; [done |].
  destruct Hinv as [Hsize _]. unfold iotrace_trace_deinit.
  destruct (version_buff c) as [buff|] eqn:Hbuff; cbn; by rewrite ?Hbuff.
Qed.
